(** * The National Ledger: hash-chained append-only record store

    A shallow embedding of [nova_syntheia/ledger/service.py],
    [nova_syntheia/ledger/models.py] and [nova_syntheia/ledger/audit.py],
    together with the library functions the hash engine calls
    ([hashlib.sha256], [json.dumps], [str], [datetime.isoformat]).

    Conventions.
    - A Python [str] is a Rocq [string] holding its UTF-8 encoding, so that
      [s.encode("utf-8")] is the identity and comparing two strings byte by
      byte is comparing them code point by code point.  A [str] with a
      surrogate code point has no such encoding and is not represented.
    - A Python [int] is a [Z]; a 32-bit word of SHA-256 is a [Z] kept below
      [2^32] by masking.
    - [uuid4()] and [datetime.now(timezone.utc)] are inputs of the operation
      that calls them.
    - The table [ledger_entries] is the list of its rows in insertion
      order, each row as a query returns it.  A session takes the table
      and leaves a table, with a value or an exception.  A commit checks
      the column types and constraints that [models.py] declares.
    - What the database does to the values of a row is a parameter
      ([Storage]): the values it refuses, the content a [JSONB] column
      returns and the timestamp a [DateTime(timezone=True)] column
      returns.  The service is verified for every storage;
      [Postgres.storage] is the one of PostgreSQL with psycopg2.
    - A database in which [Base.metadata.create_all] has not run has no
      table [ledger_entries]: [LedgerService] gives the methods on such a
      database, [Ledger] the sessions they run on the table.
    - The interpreter is taken to have the memory and the recursion depth
      that a call needs. *)

From Stdlib Require Import ZArith Ascii String DecimalString.
From stdpp Require Import base list strings sorting.
Local Open Scope Z_scope.

(** ** Python built-ins used by the ledger *)

Module Py.

(** [str(n)] for an [int]. *)
Definition str_int (n : Z) : string := NilZero.string_of_int (Z.to_int n).

Definition hex_digit (d : Z) : ascii :=
  ascii_of_N (Z.to_N (if d <? 10 then 48 + d else 87 + d)).

(** The [n] low hexadecimal digits of [v], lowercase, most significant
    first: [format(v, "0nx")] for [v] below [16^n]. *)
Fixpoint hex_of (n : nat) (v : Z) : string :=
  match n with
  | O => EmptyString
  | S n' => hex_of n' (Z.shiftr v 4) +:+ String (hex_digit (Z.land v 0xf)) EmptyString
  end.

(** [n] written with at least [w] decimal digits (["%0wd"], [0 <= n]). *)
Definition zpad (w : nat) (n : Z) : string :=
  let s := str_int n in
  string_of_list_ascii (replicate (w - String.length s) "0"%char) +:+ s.

(** A [uuid.UUID] is its 128-bit integer. *)
Definition UUID := Z.

(** [str(u)]: 8-4-4-4-12 lowercase hexadecimal digits. *)
Definition str_uuid (u : UUID) : string :=
  let h := hex_of 32 u in
  substring 0 8 h +:+ "-" +:+ substring 8 4 h +:+ "-" +:+ substring 12 4 h
    +:+ "-" +:+ substring 16 4 h +:+ "-" +:+ substring 20 12 h.

(** A [datetime.datetime]; [utcoffset] is the offset of its [tzinfo] in
    minutes, [None] for a naive value. *)
Record datetime := Datetime {
  year : Z; month : Z; day : Z;
  hour : Z; minute : Z; second : Z; microsecond : Z;
  utcoffset : option Z
}.

(** [d.isoformat()] *)
Definition isoformat (d : datetime) : string :=
  zpad 4 (year d) +:+ "-" +:+ zpad 2 (month d) +:+ "-" +:+ zpad 2 (day d)
    +:+ "T" +:+ zpad 2 (hour d) +:+ ":" +:+ zpad 2 (minute d)
    +:+ ":" +:+ zpad 2 (second d)
    +:+ (if microsecond d =? 0 then "" else "." +:+ zpad 6 (microsecond d))
    +:+ match utcoffset d with
        | None => ""
        | Some off =>
            (if off <? 0 then "-" else "+")
              +:+ zpad 2 (Z.abs off / 60) +:+ ":" +:+ zpad 2 (Z.abs off mod 60)
        end.

(** The bytes of a text. *)
Definition bytes_of (s : string) : list Z :=
  (fun c => Z.of_N (N_of_ascii c)) <$> list_ascii_of_string s.

(** A byte that continues a UTF-8 sequence. *)
Definition is_cont (c : ascii) : bool :=
  let b := Z.of_N (N_of_ascii c) in (0x80 <=? b) && (b <? 0xc0).

(** [s[:n]]: the first [n] code points of [s]. *)
Fixpoint slice_to (n : nat) (s : string) : string :=
  match s with
  | EmptyString => EmptyString
  | String c r =>
      if is_cont c then String c (slice_to n r)
      else match n with
           | O => EmptyString
           | S n' => String c (slice_to n' r)
           end
  end.

(** [sub in s] *)
Fixpoint contains (sub s : string) : bool :=
  String.prefix sub s ||
  match s with
  | EmptyString => false
  | String _ r => contains sub r
  end.

End Py.

(** ** [hashlib.sha256]: FIPS 180-4 on 32-bit words *)

Module Sha256.

Definition mask32 : Z := 0xffffffff.
Definition add32 (a b : Z) : Z := Z.land (a + b) mask32.
Definition rotr (n x : Z) : Z :=
  Z.lor (Z.shiftr x n) (Z.land (Z.shiftl x (32 - n)) mask32).
Definition not32 (x : Z) : Z := Z.lxor x mask32.

Definition Ch (x y z : Z) : Z := Z.lxor (Z.land x y) (Z.land (not32 x) z).
Definition Maj (x y z : Z) : Z :=
  Z.lxor (Z.lxor (Z.land x y) (Z.land x z)) (Z.land y z).
Definition bsig0 (x : Z) : Z := Z.lxor (Z.lxor (rotr 2 x) (rotr 13 x)) (rotr 22 x).
Definition bsig1 (x : Z) : Z := Z.lxor (Z.lxor (rotr 6 x) (rotr 11 x)) (rotr 25 x).
Definition ssig0 (x : Z) : Z := Z.lxor (Z.lxor (rotr 7 x) (rotr 18 x)) (Z.shiftr x 3).
Definition ssig1 (x : Z) : Z := Z.lxor (Z.lxor (rotr 17 x) (rotr 19 x)) (Z.shiftr x 10).

(** The primes below 312: the first 64. *)
Definition is_prime (p : Z) : bool :=
  forallb (fun d => negb (p mod d =? 0)) (seqZ 2 (p - 2)).
Definition primes : list Z := List.filter is_prime (seqZ 2 310).

(** The integer cube root of [n], built from bit [bits - 1] down. *)
Fixpoint cube_root (bits : nat) (n r : Z) : Z :=
  match bits with
  | O => r
  | S b =>
      let r' := r + Z.shiftl 1 (Z.of_nat b) in
      cube_root b n (if r' * r' * r' <=? n then r' else r)
  end.

(** The round constants: the first 32 bits of the fractional parts of the
    cube roots of the first 64 primes. *)
Definition K256 : list Z :=
  (fun p => Z.land (cube_root 36 (Z.shiftl p 96) 0) mask32) <$> primes.

(** The initial hash value: the first 32 bits of the fractional parts of the
    square roots of the first 8 primes. *)
Definition H0 : list Z :=
  (fun p => Z.land (Z.sqrt (Z.shiftl p 64)) mask32) <$> take 8 primes.

(** The [n] low bytes of [v], most significant first. *)
Fixpoint be_bytes (n : nat) (v : Z) : list Z :=
  match n with
  | O => []
  | S n' => be_bytes n' (Z.shiftr v 8) ++ [Z.land v 0xff]
  end.

Definition pad (msg : list Z) : list Z :=
  let l := Z.of_nat (length msg) in
  let k := Z.to_nat ((55 - l) mod 64) in
  msg ++ [0x80] ++ replicate k 0 ++ be_bytes 8 (8 * l).

Fixpoint words_of (fuel : nat) (bs : list Z) : list Z :=
  match fuel, bs with
  | S f, b0 :: b1 :: b2 :: b3 :: rest =>
      (Z.shiftl b0 24 + Z.shiftl b1 16 + Z.shiftl b2 8 + b3) :: words_of f rest
  | _, _ => []
  end.

(** The message schedule extended by [n] words; the list is kept with the
    most recent word first. *)
Fixpoint schedule (n : nat) (rev_w : list Z) : list Z :=
  match n with
  | O => rev_w
  | S n' =>
      let w := add32 (add32 (ssig1 (nth 1 rev_w 0)) (nth 6 rev_w 0))
                     (add32 (ssig0 (nth 14 rev_w 0)) (nth 15 rev_w 0)) in
      schedule n' (w :: rev_w)
  end.

Record regs := Regs { ra : Z; rb : Z; rc : Z; rd : Z; re : Z; rf : Z; rg : Z; rh : Z }.

Definition round (r : regs) (kw : Z * Z) : regs :=
  let t1 := add32 (add32 (add32 (rh r) (bsig1 (re r))) (Ch (re r) (rf r) (rg r)))
                  (add32 (fst kw) (snd kw)) in
  let t2 := add32 (bsig0 (ra r)) (Maj (ra r) (rb r) (rc r)) in
  Regs (add32 t1 t2) (ra r) (rb r) (rc r) (add32 (rd r) t1) (re r) (rf r) (rg r).

Definition regs_of (h : list Z) : regs :=
  Regs (nth 0 h 0) (nth 1 h 0) (nth 2 h 0) (nth 3 h 0)
       (nth 4 h 0) (nth 5 h 0) (nth 6 h 0) (nth 7 h 0).
Definition list_of (r : regs) : list Z :=
  [ra r; rb r; rc r; rd r; re r; rf r; rg r; rh r].

Definition compress (h : list Z) (block : list Z) : list Z :=
  let w := rev (schedule 48 (rev block)) in
  let r := foldl round (regs_of h) (zip K256 w) in
  zip_with add32 h (list_of r).

Fixpoint blocks (fuel : nat) (h : list Z) (ws : list Z) : list Z :=
  match fuel with
  | O => h
  | S f =>
      match ws with
      | [] => h
      | _ => blocks f (compress h (take 16 ws)) (drop 16 ws)
      end
  end.

Definition digest (msg : list Z) : list Z :=
  let p := pad msg in
  let ws := words_of (length p) p in
  blocks (length ws) H0 ws.

Definition hexdigest (msg : list Z) : string :=
  foldr (fun w acc => Py.hex_of 8 w +:+ acc) EmptyString (digest msg).

(** [hashlib.sha256(s.encode("utf-8")).hexdigest()] *)
Definition sha256_hex (s : string) : string := hexdigest (Py.bytes_of s).

End Sha256.


(** ** [json.dumps(obj, sort_keys=True, default=str)] *)

Module Json.

(** What a JSON document holds.  A [float] is carried as its [repr], which
    is what the encoder writes for it.  A [dict] is the list of its items in
    insertion order; its keys are strings and pairwise distinct ([wf]).
    With such values the encoder never calls [default]. *)
#[local] Unset Elimination Schemes.
Inductive value :=
  | JNull
  | JBool (b : bool)
  | JInt (n : Z)
  | JFloat (repr : string)
  | JStr (s : string)
  | JList (l : list value)
  | JDict (items : list (string * value)).
#[local] Set Elimination Schemes.

Definition dquote : string := String "034"%char EmptyString.

(** Code points of a UTF-8 byte sequence.  A byte that does not start a
    complete sequence is passed on as it is. *)
Fixpoint code_points (bs : list Z) : list Z :=
  match bs with
  | [] => []
  | b0 :: r0 =>
      if b0 <? 0xc0 then b0 :: code_points r0
      else
        match r0 with
        | b1 :: r1 =>
            if b0 <? 0xe0 then
              Z.lor (Z.shiftl (Z.land b0 0x1f) 6) (Z.land b1 0x3f) :: code_points r1
            else
              match r1 with
              | b2 :: r2 =>
                  if b0 <? 0xf0 then
                    Z.lor (Z.shiftl (Z.land b0 0x0f) 12)
                      (Z.lor (Z.shiftl (Z.land b1 0x3f) 6) (Z.land b2 0x3f))
                      :: code_points r2
                  else
                    match r2 with
                    | b3 :: r3 =>
                        Z.lor (Z.shiftl (Z.land b0 0x07) 18)
                          (Z.lor (Z.shiftl (Z.land b1 0x3f) 12)
                             (Z.lor (Z.shiftl (Z.land b2 0x3f) 6) (Z.land b3 0x3f)))
                          :: code_points r3
                    | [] => b0 :: code_points r0
                    end
              | [] => b0 :: code_points r0
              end
        | [] => [b0]
        end
  end.

Definition u_escape (cp : Z) : string := "\u" +:+ Py.hex_of 4 cp.

(** The replacement of one code point in [py_encode_basestring_ascii]. *)
Definition escape_cp (cp : Z) : string :=
  if cp =? 0x22 then "\" +:+ dquote
  else if cp =? 0x5c then "\\"
  else if cp =? 0x08 then "\b"
  else if cp =? 0x0c then "\f"
  else if cp =? 0x0a then "\n"
  else if cp =? 0x0d then "\r"
  else if cp =? 0x09 then "\t"
  else if (0x20 <=? cp) && (cp <=? 0x7e) then
    String (ascii_of_N (Z.to_N cp)) EmptyString
  else if cp <? 0x10000 then u_escape cp
  else
    let v := cp - 0x10000 in
    u_escape (Z.lor 0xd800 (Z.land (Z.shiftr v 10) 0x3ff))
      +:+ u_escape (Z.lor 0xdc00 (Z.land v 0x3ff)).

(** A string literal with [ensure_ascii=True]. *)
Definition encode_str (s : string) : string :=
  dquote +:+ String.concat "" (escape_cp <$> code_points (Py.bytes_of s)) +:+ dquote.

(** The order [sorted] puts the items of a [dict] in: by key. *)
Definition key_le (a b : string * string) : Prop := (a.1 ≤ b.1)%string.
#[global] Instance key_le_dec : RelDecision key_le.
Proof. intros a b. unfold key_le. apply _. Defined.

Definition sort_items (items : list (string * string)) : list (string * string) :=
  merge_sort key_le items.

Definition encode_item (kv : string * string) : string :=
  encode_str kv.1 +:+ ": " +:+ kv.2.

(** [json.dumps(v, sort_keys=True, default=str)].  The values of a [dict]
    are encoded before its items are put in key order. *)
Fixpoint dumps (v : value) : string :=
  match v with
  | JNull => "null"
  | JBool true => "true"
  | JBool false => "false"
  | JInt n => Py.str_int n
  | JFloat r => r
  | JStr s => encode_str s
  | JList l => "[" +:+ String.concat ", " (dumps <$> l) +:+ "]"
  | JDict items =>
      "{" +:+ String.concat ", "
                (encode_item <$> sort_items ((fun kv => (kv.1, dumps kv.2)) <$> items))
          +:+ "}"
  end.

(** A [dict] has no two items with one key, at any depth. *)
Fixpoint wf (v : value) : bool :=
  match v with
  | JList l => forallb wf l
  | JDict items =>
      bool_decide (NoDup items.*1) && forallb (fun kv => wf kv.2) items
  | _ => true
  end.

(** Two documents that differ only in the insertion order of the items of
    their [dict]s, at any depth. *)
Inductive reorder : value -> value -> Prop :=
  | reorder_refl v : reorder v v
  | reorder_trans u v w : reorder u v -> reorder v w -> reorder u w
  | reorder_items items items' :
      items ≡ₚ items' -> reorder (JDict items) (JDict items')
  | reorder_in_dict before k v v' after :
      reorder v v' ->
      reorder (JDict (before ++ (k, v) :: after))
              (JDict (before ++ (k, v') :: after))
  | reorder_in_list before v v' after :
      reorder v v' ->
      reorder (JList (before ++ v :: after)) (JList (before ++ v' :: after)).

End Json.

(** ** The table [ledger_entries] ([ledger/models.py]) *)

Module Ledger.
Import Py Json.

(** [GENESIS_HASH = "0" * 64] *)
Definition GENESIS_HASH : string := string_of_list_ascii (replicate 64 "0"%char).

(** A row of [LedgerEntryDB]. *)
Record LedgerEntryDB := {
  id : UUID;
  sequence_number : Z;
  previous_hash : string;
  entry_hash : string;
  timestamp : datetime;
  entry_type : string;
  author_role : string;
  author_member_id : UUID;
  content : value;
  supersedes : option UUID;
  emergency_designation : bool
}.

#[global] Instance value_eq_dec : EqDecision value.
Proof.
  refine (fix go (x y : value) {struct x} : Decision (x = y) :=
    match x, y with
    | JNull, JNull => left _
    | JBool a, JBool b => cast_if (decide (a = b))
    | JInt a, JInt b => cast_if (decide (a = b))
    | JFloat a, JFloat b => cast_if (decide (a = b))
    | JStr a, JStr b => cast_if (decide (a = b))
    | JList a, JList b =>
        cast_if ((fix gol (l1 l2 : list value) {struct l1} : Decision (l1 = l2) :=
           match l1, l2 with
           | [], [] => left _
           | v1 :: r1, v2 :: r2 => cast_if_and (go v1 v2) (gol r1 r2)
           | _, _ => right _
           end) a b)
    | JDict a, JDict b =>
        cast_if ((fix god (l1 l2 : list (string * value)) {struct l1}
                    : Decision (l1 = l2) :=
           match l1, l2 with
           | [], [] => left _
           | (k1, v1) :: r1, (k2, v2) :: r2 =>
               cast_if_and3 (decide (k1 = k2)) (go v1 v2) (god r1 r2)
           | _, _ => right _
           end) a b)
    | _, _ => right _
    end); clear go; try clear gol; try clear god; congruence.
Defined.

#[global] Instance datetime_eq_dec : EqDecision datetime.
Proof. solve_decision. Defined.
#[global] Instance LedgerEntryDB_eq_dec : EqDecision LedgerEntryDB.
Proof. solve_decision. Defined.

(** The exceptions that leave the service: its own
    ([LedgerIntegrityError]), those that SQLAlchemy raises for the
    database, and the [ValueError] of the driver for a value it cannot
    send. *)
Inductive exn :=
  | LedgerIntegrityError (msg : string)
  | IntegrityError (constraint : string)
  | DataError (column : string)
  | MultipleResultsFound
  | ValueError (column : string)
  | InvalidRequestError
  | ProgrammingError (relation : string).

Inductive result (A : Type) :=
  | Ok (a : A)
  | Raise (e : exn).
Arguments Ok {A} a.
Arguments Raise {A} e.

(** The table: its rows in insertion order. *)
Abbreviation store := (list LedgerEntryDB).

(** A computation in a session on the table: it leaves a table and either
    returns or raises. *)
Definition session (A : Type) : Type := store -> store * result A.

Definition ret {A} (a : A) : session A := fun st => (st, Ok a).
Definition raise {A} (e : exn) : session A := fun st => (st, Raise e).
Definition sbind {A B} (m : session A) (k : A -> session B) : session B :=
  fun st =>
    match m st with
    | (st', Ok a) => k a st'
    | (st', Raise e) => (st', Raise e)
    end.
Notation "x <- m ;; k" := (sbind m (fun x => k))
  (at level 100, m at next level, right associativity).

(** [len(s)] in characters, which is what a [String(n)] column bounds. *)
Fixpoint char_length (s : string) : nat :=
  match s with
  | EmptyString => O
  | String c r => ((if is_cont c then 0 else 1) + char_length r)%nat
  end.

(** ** The storage

    The code of the service does not say what the database does with the
    values of a row; [models.py] only names the column types.  A storage
    gives
    - [unstorable e]: the refusal of an [INSERT] of [e] because a column
      cannot hold one of its values, whatever the table holds: by the
      driver, which raises [ValueError], or by the server, for which
      SQLAlchemy raises [DataError];
    - [jsonb c]: the content that a query returns for a row written with
      content [c] (column type [JSONB]);
    - [timestamptz t]: the timestamp that a query returns for a row written
      with timestamp [t] (column type [DateTime(timezone=True)]).
    The columns of type [UUID], [Integer], [String] and [Boolean] return
    what was written. *)
Inductive refusal :=
  | ByDriver (column : string)
  | ByServer (column : string).

Definition refusal_exn (r : refusal) : exn :=
  match r with
  | ByDriver column => ValueError column
  | ByServer column => DataError column
  end.

Class Storage := {
  unstorable : LedgerEntryDB -> option refusal;
  jsonb : value -> value;
  timestamptz : datetime -> datetime
}.

Section Commit.
Context {DB : Storage}.

(** The row that a query returns for a row written as [e]. *)
Definition stored (e : LedgerEntryDB) : LedgerEntryDB :=
  {| id := id e;
     sequence_number := sequence_number e;
     previous_hash := previous_hash e;
     entry_hash := entry_hash e;
     timestamp := timestamptz (timestamp e);
     entry_type := entry_type e;
     author_role := author_role e;
     author_member_id := author_member_id e;
     content := jsonb (content e);
     supersedes := supersedes e;
     emergency_designation := emergency_designation e |}.

(** What the storage, the column types and the constraints of
    [LedgerEntryDB] refuse in a new row: a value that a column cannot
    hold, [Integer], [String(n)], the primary key, [unique=True] on
    [sequence_number] and on [entry_hash], and the foreign key
    [supersedes -> ledger_entries.id]. *)
Definition violation (st : store) (e : LedgerEntryDB) : option exn :=
  match unstorable e with
  | Some r => Some (refusal_exn r)
  | None =>
      if negb ((-2147483648 <=? sequence_number e) && (sequence_number e <=? 2147483647))
      then Some (DataError "sequence_number")
      else if negb (char_length (previous_hash e) <=? 64)%nat
      then Some (DataError "previous_hash")
      else if negb (char_length (entry_hash e) <=? 64)%nat
      then Some (DataError "entry_hash")
      else if negb (char_length (entry_type e) <=? 50)%nat
      then Some (DataError "entry_type")
      else if negb (char_length (author_role e) <=? 100)%nat
      then Some (DataError "author_role")
      else if bool_decide (id e ∈ id <$> st)
      then Some (IntegrityError "id")
      else if bool_decide (sequence_number e ∈ sequence_number <$> st)
      then Some (IntegrityError "sequence_number")
      else if bool_decide (entry_hash e ∈ entry_hash <$> st)
      then Some (IntegrityError "entry_hash")
      else
        match supersedes e with
        | Some u =>
            if bool_decide (u ∈ id <$> (st ++ [e])) then None
            else Some (IntegrityError "supersedes")
        | None => None
        end
  end.

(** [session.add(row); session.commit()]: the table gets the row as the
    storage returns it, unless the row is refused. *)
Definition add_commit (e : LedgerEntryDB) : session unit :=
  fun st =>
    match violation st e with
    | Some err => (st, Raise err)
    | None => (st ++ [stored e], Ok tt)
    end.

End Commit.

Arguments violation : simpl never.

(** [.scalar_one_or_none()] on the rows a query returns. *)
Definition scalar_one_or_none {A} (rows : list A) : result (option A) :=
  match rows with
  | [] => Ok None
  | [r] => Ok (Some r)
  | _ => Raise MultipleResultsFound
  end.

(** [session.refresh(row)]: the attributes of [row] are read again from
    the table, by its primary key. *)
Definition refresh (e : LedgerEntryDB) : session LedgerEntryDB :=
  fun st =>
    match scalar_one_or_none (filter (fun r => id r = id e) st) with
    | Ok (Some r) => (st, Ok r)
    | Ok None => (st, Raise InvalidRequestError)
    | Raise x => (st, Raise x)
    end.

Definition seq_le (a b : LedgerEntryDB) : Prop :=
  sequence_number a <= sequence_number b.
Definition seq_ge (a b : LedgerEntryDB) : Prop :=
  sequence_number b <= sequence_number a.
#[global] Instance seq_le_dec : RelDecision seq_le.
Proof. intros a b. unfold seq_le. apply _. Defined.
#[global] Instance seq_ge_dec : RelDecision seq_ge.
Proof. intros a b. unfold seq_ge. apply _. Defined.

(** [select(LedgerEntryDB).order_by(LedgerEntryDB.sequence_number.asc())] *)
Definition select_asc (st : store) : list LedgerEntryDB := merge_sort seq_le st.
(** [select(LedgerEntryDB).order_by(LedgerEntryDB.sequence_number.desc())] *)
Definition select_desc (st : store) : list LedgerEntryDB := merge_sort seq_ge st.

(** ** The ledger service ([ledger/service.py])

    The definitions that follow are the sessions that the methods of
    [LedgerService] run, given the rows of the table [ledger_entries].
    [LedgerService] below gives the methods on a database that may lack
    the table. *)

(** [LedgerService._compute_hash].  A [UUID] is never falsy, so
    [str(supersedes) if supersedes else None] is [None] exactly for
    [supersedes=None]. *)
Definition _compute_hash (entry_id : UUID) (sequence_number : Z)
    (previous_hash : string) (timestamp : datetime)
    (entry_type author_role : string) (author_member_id : UUID)
    (content : value) (supersedes : option UUID)
    (emergency_designation : bool) : string :=
  let hashable := JDict [
    ("id", JStr (str_uuid entry_id));
    ("sequence_number", JInt sequence_number);
    ("previous_hash", JStr previous_hash);
    ("timestamp", JStr (isoformat timestamp));
    ("entry_type", JStr entry_type);
    ("author_role", JStr author_role);
    ("author_member_id", JStr (str_uuid author_member_id));
    ("content", content);
    ("supersedes",
       match supersedes with Some u => JStr (str_uuid u) | None => JNull end);
    ("emergency_designation", JBool emergency_designation)
  ] in
  let canonical := dumps hashable in
  Sha256.sha256_hex (previous_hash +:+ canonical).

Arguments _compute_hash : simpl never.

(** The call of [_compute_hash] on the stored fields of a row
    ([verify_chain], lines 267-278). *)
Definition recompute_hash (entry : LedgerEntryDB) : string :=
  _compute_hash (id entry) (sequence_number entry) (previous_hash entry)
    (timestamp entry) (entry_type entry) (author_role entry)
    (author_member_id entry) (content entry) (supersedes entry)
    (emergency_designation entry).

Definition genesis_content : value :=
  JDict [
    ("message", JStr "Genesis of the National Ledger of Nova Syntheia");
    ("declaration",
       JStr ("This entry establishes the permanent institutional record "
             +:+ "of Nova Syntheia — a constitutional polity of human and "
             +:+ "artificial members. E Pluribus Unum — And Together, More."));
    ("integrity_standard",
       JDict [("cryptographically_verifiable", JBool true);
              ("append_only", JBool true);
              ("independently_auditable", JBool true)]);
    ("constitutional_authority", JStr "Article VIII — The National Ledger")
  ].

(** [LedgerService._create_genesis_block]; its two [uuid4()] and its
    [datetime.now(timezone.utc)] are the arguments. *)
Definition _create_genesis_block (genesis_id system_member_id : UUID)
    (genesis_timestamp : datetime) : LedgerEntryDB :=
  let content := genesis_content in
  let entry_hash :=
    _compute_hash genesis_id 0 GENESIS_HASH genesis_timestamp "genesis"
      "system" system_member_id content None false in
  {| id := genesis_id;
     sequence_number := 0;
     previous_hash := GENESIS_HASH;
     entry_hash := entry_hash;
     timestamp := genesis_timestamp;
     entry_type := "genesis";
     author_role := "system";
     author_member_id := system_member_id;
     content := content;
     supersedes := None;
     emergency_designation := false |}.

Arguments _create_genesis_block : simpl never.

(** [select(LedgerEntryDB).where(LedgerEntryDB.sequence_number == 0)]
    [.scalar_one_or_none()] *)
Definition select_genesis : session (option LedgerEntryDB) :=
  fun st =>
    (st, scalar_one_or_none (filter (fun e => sequence_number e = 0) st)).

(** [select(LedgerEntryDB).order_by(LedgerEntryDB.sequence_number.desc())]
    [.limit(1).scalar_one_or_none()] *)
Definition select_last : session (option LedgerEntryDB) :=
  fun st => (st, scalar_one_or_none (take 1 (select_desc st))).

Section Writes.
Context {DB : Storage}.

(** The session of [LedgerService.initialize] (lines 92-104), on the
    table that [Base.metadata.create_all] has made sure of. *)
Definition initialize (genesis_id system_member_id : UUID)
    (genesis_timestamp : datetime) : session unit :=
  existing <- select_genesis ;;
  match existing with
  | None =>
      let genesis :=
        _create_genesis_block genesis_id system_member_id genesis_timestamp in
      add_commit genesis
  | Some _ => ret tt
  end.

(** The session of [LedgerService.append], lines 183-192: read the tip,
    or raise. *)
Definition append_read : session LedgerEntryDB :=
  last_entry <- select_last ;;
  match last_entry with
  | None =>
      raise (LedgerIntegrityError
               "Cannot append: no genesis block found. Call initialize() first.")
  | Some e => ret e
  end.

(** The session of [LedgerService.append], lines 194-235: build the row
    that follows [last_entry], commit it and read it again.  [entry_id]
    is the [uuid4()] and [timestamp] the [datetime.now(timezone.utc)] of
    the call. *)
Definition append_write (last_entry : LedgerEntryDB)
    (entry_type author_role : string) (author_member_id : UUID)
    (content : value) (supersedes : option UUID)
    (emergency_designation : bool)
    (entry_id : UUID) (timestamp : datetime) : session LedgerEntryDB :=
  let new_seq := sequence_number last_entry + 1 in
  let previous_hash := entry_hash last_entry in
  let entry_hash :=
    _compute_hash entry_id new_seq previous_hash timestamp entry_type
      author_role author_member_id content supersedes emergency_designation in
  let entry :=
    {| id := entry_id;
       sequence_number := new_seq;
       previous_hash := previous_hash;
       entry_hash := entry_hash;
       timestamp := timestamp;
       entry_type := entry_type;
       author_role := author_role;
       author_member_id := author_member_id;
       content := content;
       supersedes := supersedes;
       emergency_designation := emergency_designation |} in
  _ <- add_commit entry ;;
  refresh entry.

(** The session of [LedgerService.append] *)
Definition append (entry_type author_role : string) (author_member_id : UUID)
    (content : value) (supersedes : option UUID)
    (emergency_designation : bool)
    (entry_id : UUID) (timestamp : datetime) : session LedgerEntryDB :=
  last_entry <- append_read ;;
  append_write last_entry entry_type author_role author_member_id content
    supersedes emergency_designation entry_id timestamp.

End Writes.

(** The loop of [verify_chain] from index [i] on, [rest] being
    [entries[i:]]: [Some] is the [return] that leaves the loop, [None] its
    normal end.  [entries[i - 1]] is in range whenever [i > 0]. *)
Fixpoint verify_loop (entries : list LedgerEntryDB) (i : nat)
    (rest : list LedgerEntryDB) : option (bool * Z * string) :=
  match rest with
  | [] => None
  | entry :: rest' =>
      let expected_hash := recompute_hash entry in
      if decide (entry_hash entry ≠ expected_hash) then
        Some (false, Z.of_nat i,
              "Hash mismatch at sequence " +:+ str_int (sequence_number entry)
                +:+ ": stored=" +:+ slice_to 16 (entry_hash entry)
                +:+ "... computed=" +:+ slice_to 16 expected_hash +:+ "...")
      else if decide ((0 < i)%nat ∧
                      Some (previous_hash entry)
                        ≠ entry_hash <$> entries !! (i - 1)%nat) then
        Some (false, Z.of_nat i,
              "Chain break at sequence " +:+ str_int (sequence_number entry)
                +:+ ": previous_hash does not match prior entry's hash")
      else verify_loop entries (S i) rest'
  end.

(** The session of [LedgerService.verify_chain] *)
Definition verify_chain (st : store) : bool * Z * string :=
  let entries := select_asc st in
  match entries with
  | [] => (false, 0, "No entries found in ledger")
  | first :: _ =>
      if decide (sequence_number first ≠ 0) then
        (false, 0,
         "First entry has sequence " +:+ str_int (sequence_number first)
           +:+ ", expected 0")
      else if decide (previous_hash first ≠ GENESIS_HASH) then
        (false, 0, "Genesis block has incorrect previous_hash")
      else
        match verify_loop entries 0 entries with
        | Some r => r
        | None =>
            (true, Z.of_nat (length entries),
             "Chain verified: " +:+ str_int (Z.of_nat (length entries))
               +:+ " entries, integrity intact")
        end
  end.

(** The session of [LedgerService.get_entry_count]:
    [result.scalar() or 0] *)
Definition get_entry_count (st : store) : Z := Z.of_nat (length st).

(** The session of [LedgerService.get_latest_entries] *)
Definition get_latest_entries (limit : Z) (st : store) : list LedgerEntryDB :=
  take (Z.to_nat limit) (select_desc st).

(** ** States of the table *)

Section States.
Context {DB : Storage}.

(** The tables that [initialize] on an empty table and then any calls of
    [append] and [initialize] lead to. *)
Inductive reachable : store -> Prop :=
  | reach_genesis gid sid ts st :
      initialize gid sid ts [] = (st, Ok tt) -> reachable st
  | reach_append et ar am c sup em eid ts st st' r :
      reachable st ->
      append et ar am c sup em eid ts st = (st', r) ->
      reachable st'
  | reach_initialize gid sid ts st st' r :
      reachable st ->
      initialize gid sid ts st = (st', r) ->
      reachable st'.

(** Calls of [append] that run at once.  No lock is taken, so between the
    read of the tip (lines 183-192) and the commit (lines 194-227) of one
    call the others may read and commit.  A state is the table and the
    tips read by the calls that have not committed yet. *)
Inductive race_step :
    store * list LedgerEntryDB -> store * list LedgerEntryDB -> Prop :=
  | race_read st pending tip :
      append_read st = (st, Ok tip) ->
      race_step (st, pending) (st, tip :: pending)
  | race_write st before tip after et ar am c sup em eid ts st' r :
      append_write tip et ar am c sup em eid ts st = (st', r) ->
      race_step (st, before ++ tip :: after) (st', before ++ after).

(** The states of a run that starts after [initialize] on an empty table. *)
Inductive race_reachable : store * list LedgerEntryDB -> Prop :=
  | race_start gid sid ts st :
      initialize gid sid ts [] = (st, Ok tt) -> race_reachable (st, [])
  | race_next s s' :
      race_reachable s -> race_step s s' -> race_reachable s'.

(** The storage returns content [c] and timestamp [ts] in a form that
    [_compute_hash] serialises as it serialised what was written. *)
Definition round_trips (c : value) (ts : datetime) : Prop :=
  dumps (jsonb c) = dumps c
  /\ isoformat (timestamptz ts) = isoformat ts.

(** The tables of [reachable] that were built from contents and
    timestamps that round-trip. *)
Inductive built : store -> Prop :=
  | built_genesis gid sid ts st :
      round_trips genesis_content ts ->
      initialize gid sid ts [] = (st, Ok tt) -> built st
  | built_append et ar am c sup em eid ts st st' r :
      built st ->
      round_trips c ts ->
      append et ar am c sup em eid ts st = (st', r) ->
      built st'
  | built_initialize gid sid ts st st' r :
      built st ->
      initialize gid sid ts st = (st', r) ->
      built st'.

End States.

(** Row [i] carries sequence number [i]. *)
Definition indexed (st : store) : Prop :=
  forall (i : nat) e, st !! i = Some e -> sequence_number e = Z.of_nat i.

(** Every row but the first names the hash of the row before it. *)
Definition linked (st : store) : Prop :=
  forall (i : nat) p e,
    st !! i = Some p -> st !! S i = Some e -> previous_hash e = entry_hash p.

(** No two appended rows name the same previous hash. *)
Definition fork_free (st : store) : Prop :=
  forall (i j : nat) a b,
    st !! i = Some a -> st !! j = Some b -> (0 < i)%nat -> (0 < j)%nat ->
    previous_hash a = previous_hash b -> i = j.

(** What [initialize] and [append] maintain, whatever the storage. *)
Record chain (st : store) : Prop := {
  chain_nonempty : st <> [];
  chain_indexed : indexed st;
  chain_genesis : forall e, st !! 0%nat = Some e -> previous_hash e = GENESIS_HASH;
  chain_linked : linked st;
  chain_hash_unique : NoDup (entry_hash <$> st)
}.

(** Every row carries the hash of its fields as a query returns them. *)
Definition hashed (st : store) : Prop :=
  forall e, e ∈ st -> entry_hash e = recompute_hash e.

(** [e] is a row of [st] with the highest sequence number. *)
Definition is_tip (st : store) (e : LedgerEntryDB) : Prop :=
  e ∈ st /\ forall x, x ∈ st -> sequence_number x <= sequence_number e.

(** [e] is a row of [st] with the lowest sequence number. *)
Definition is_first (st : store) (e : LedgerEntryDB) : Prop :=
  e ∈ st /\ forall x, x ∈ st -> sequence_number e <= sequence_number x.

End Ledger.

(** ** The methods of [LedgerService] on a database *)

Module LedgerService.
Import Py Json Ledger.

(** The database: its table [ledger_entries], or [None] when it has no
    such table. *)
Definition database : Type := option store.

(** [Base.metadata.create_all(self.engine)]: the table is created when it
    is absent; a table that is there keeps its rows. *)
Definition create_all (db : database) : database :=
  match db with
  | None => Some []
  | Some st => Some st
  end.

(** [with self.SessionLocal() as session: ...] for a session whose first
    statement is a [SELECT] on the table: without the table that
    statement raises, and the database stays as it is. *)
Definition on_table {A} (body : session A) (db : database)
    : database * result A :=
  match db with
  | None => (None, Raise (ProgrammingError "ledger_entries"))
  | Some st => let '(st', r) := body st in (Some st', r)
  end.

Section Methods.
Context {DB : Storage}.

(** [LedgerService.initialize] *)
Definition initialize (genesis_id system_member_id : UUID)
    (genesis_timestamp : datetime) (db : database) : database * result unit :=
  on_table (Ledger.initialize genesis_id system_member_id genesis_timestamp)
    (create_all db).

(** [LedgerService.append] *)
Definition append (entry_type author_role : string) (author_member_id : UUID)
    (content : value) (supersedes : option UUID)
    (emergency_designation : bool)
    (entry_id : UUID) (timestamp : datetime) (db : database)
    : database * result LedgerEntryDB :=
  on_table
    (Ledger.append entry_type author_role author_member_id content supersedes
       emergency_designation entry_id timestamp) db.

End Methods.

(** [LedgerService.verify_chain] *)
Definition verify_chain (db : database) : database * result (bool * Z * string) :=
  on_table (fun st => (st, Ok (Ledger.verify_chain st))) db.

(** [LedgerService.get_entry_count] *)
Definition get_entry_count (db : database) : database * result Z :=
  on_table (fun st => (st, Ok (Ledger.get_entry_count st))) db.

End LedgerService.

(** ** PostgreSQL as the storage *)

Module Postgres.
Import Py Json Ledger.

(** The text holds U+0000: its UTF-8 encoding is the byte 0, which the
    encoding of no other code point holds. *)
Fixpoint has_nul (s : string) : bool :=
  match s with
  | EmptyString => false
  | String c r => (N_of_ascii c =? 0)%N || has_nul r
  end.

(** The number that a nonempty text of decimal digits writes. *)
Fixpoint digits_from (acc : Z) (s : string) : option Z :=
  match s with
  | EmptyString => Some acc
  | String c r =>
      let d := Z.of_N (N_of_ascii c) - 48 in
      if (0 <=? d) && (d <=? 9) then digits_from (10 * acc + d) r else None
  end.

Definition digits (s : string) : option Z :=
  match s with
  | EmptyString => None
  | _ => digits_from 0 s
  end.

(** [s.partition(sep)] when [sep] occurs in [s]: the text before and the
    text after its first occurrence. *)
Fixpoint partition (sep : ascii) (s : string) : option (string * string) :=
  match s with
  | EmptyString => None
  | String c r =>
      if Ascii.eqb c sep then Some (EmptyString, r)
      else
        match partition sep r with
        | Some (before, after) => Some (String c before, after)
        | None => None
        end
  end.

(** The integer that a [repr] with a positive exponent writes:
    [float.__repr__] uses the form [d.ddde+xx] from [1e16] on, with at
    most 17 digits, so the number has no fraction. *)
Definition exponent_form (r : string) : option Z :=
  let '(sign, magnitude) :=
    match r with
    | String c m => if Ascii.eqb c "-" then (-1, m) else (1, r)
    | EmptyString => (1, r)
    end in
  match partition "e" magnitude with
  | Some (mantissa, String c exponent) =>
      if Ascii.eqb c "+" then
        let '(whole, fraction) :=
          match partition "." mantissa with
          | Some p => p
          | None => (mantissa, EmptyString)
          end in
        match digits (whole +:+ fraction), digits exponent with
        | Some d, Some x =>
            let scale := x - Z.of_nat (String.length fraction) in
            if 0 <=? scale then Some (sign * d * 10 ^ scale) else None
        | _, _ => None
        end
      else None
  | _ => None
  end.

(** A [float] written to a [JSONB] column and read back.  The server
    keeps a JSON number as a [numeric] and writes it without an exponent;
    [json.loads] reads a number without fraction as an [int].  A [numeric]
    has no negative zero. *)
Definition numeric (r : string) : value :=
  if decide (r = "-0.0") then JFloat "0.0"
  else
    match exponent_form r with
    | Some n => JInt n
    | None => JFloat r
    end.

(** The order a [JSONB] object keeps its keys in: shorter keys first, keys
    of one length byte by byte. *)
Definition jsonb_key_le (a b : string * value) : Prop :=
  (String.length a.1 < String.length b.1)%nat
  \/ (String.length a.1 = String.length b.1 /\ (a.1 ≤ b.1)%string).
#[global] Instance jsonb_key_le_dec : RelDecision jsonb_key_le.
Proof. intros a b. unfold jsonb_key_le. apply _. Defined.

(** The content that [json.loads] makes of a [JSONB] value. *)
Fixpoint jsonb_out (v : value) : value :=
  match v with
  | JFloat r => numeric r
  | JList l => JList (jsonb_out <$> l)
  | JDict items =>
      JDict (merge_sort jsonb_key_le ((fun kv => (kv.1, jsonb_out kv.2)) <$> items))
  | _ => v
  end.

(** [json.dumps] of the content cannot be sent or is not JSON for the
    server: an [int] of more than 4300 digits (the limit of CPython 3.11
    for the conversion to [str]); [NaN] and the infinities; U+0000 in a
    string or in a key. *)
Definition too_long (n : Z) : bool :=
  4300 <? Z.of_nat (String.length (str_int (Z.abs n))).

Definition not_finite (r : string) : bool :=
  bool_decide (r = "NaN" \/ r = "Infinity" \/ r = "-Infinity").

Fixpoint int_too_long (v : value) : bool :=
  match v with
  | JInt n => too_long n
  | JList l => existsb int_too_long l
  | JDict items => existsb (fun kv => int_too_long kv.2) items
  | _ => false
  end.

Fixpoint not_jsonb (v : value) : bool :=
  match v with
  | JFloat r => not_finite r
  | JStr s => has_nul s
  | JList l => existsb not_jsonb l
  | JDict items => existsb (fun kv => has_nul kv.1 || not_jsonb kv.2) items
  | _ => false
  end.

(** What psycopg2 and the server refuse in the values of a row: U+0000 in
    the text of a [String] column (the driver), a content whose integers
    [json.dumps] cannot write (the driver's adapter), a content that
    [JSONB] does not take (the server). *)
Definition refused (e : LedgerEntryDB) : option refusal :=
  if has_nul (previous_hash e) then Some (ByDriver "previous_hash")
  else if has_nul (entry_hash e) then Some (ByDriver "entry_hash")
  else if has_nul (entry_type e) then Some (ByDriver "entry_type")
  else if has_nul (author_role e) then Some (ByDriver "author_role")
  else if int_too_long (content e) then Some (ByDriver "content")
  else if not_jsonb (content e) then Some (ByServer "content")
  else None.

(** Days since 1970-01-01 of a date of the proleptic Gregorian calendar,
    and back. *)
Definition days_from_civil (y m d : Z) : Z :=
  let y' := if m <=? 2 then y - 1 else y in
  let era := y' / 400 in
  let yoe := y' - era * 400 in
  let doy := (153 * (if 2 <? m then m - 3 else m + 9) + 2) / 5 + d - 1 in
  let doe := yoe * 365 + yoe / 4 - yoe / 100 + doy in
  era * 146097 + doe - 719468.

Definition civil_from_days (z : Z) : Z * Z * Z :=
  let z' := z + 719468 in
  let era := z' / 146097 in
  let doe := z' - era * 146097 in
  let yoe := (doe - doe / 1460 + doe / 36524 - doe / 146096) / 365 in
  let doy := doe - (365 * yoe + yoe / 4 - yoe / 100) in
  let mp := (5 * doy + 2) / 153 in
  let d := doy - (153 * mp + 2) / 5 + 1 in
  let m := if mp <? 10 then mp + 3 else mp - 9 in
  (yoe + era * 400 + (if m <=? 2 then 1 else 0), m, d).

(** A timestamp written to a [timestamptz] column and read back in a
    session whose time zone is [tz] minutes east of UTC: the same instant
    with the offset of the session.  A naive timestamp is taken to be in
    the time zone of the session. *)
Definition timestamptz_out (tz : Z) (t : datetime) : datetime :=
  match utcoffset t with
  | None =>
      Datetime (year t) (month t) (day t) (hour t) (minute t) (second t)
        (microsecond t) (Some tz)
  | Some offset =>
      let minutes :=
        (days_from_civil (year t) (month t) (day t) * 24 + hour t) * 60
          + minute t - offset + tz in
      let '(y, m, d) := civil_from_days (minutes / 1440) in
      Datetime y m d (minutes mod 1440 / 60) (minutes mod 60) (second t)
        (microsecond t) (Some tz)
  end.

(** PostgreSQL through psycopg2, for sessions in the time zone [tz]. *)
Definition storage (tz : Z) : Storage :=
  {| unstorable := refused;
     jsonb := jsonb_out;
     timestamptz := timestamptz_out tz |}.

End Postgres.

(** ** The audit tool ([ledger/audit.py]) *)

Module Audit.
Import Py Json Ledger.

(** The calls [run_audit] makes on the service.  What it prints on the
    console is left out. *)
Inductive call :=
  | GetEntryCount
  | VerifyChain
  | GetLatestEntries (limit : Z).

(** [run_audit]: its return value and the service calls it made. *)
Definition run_audit (st : store) (verbose : bool) : bool * list call :=
  let count := get_entry_count st in
  if count =? 0 then (true, [GetEntryCount])
  else
    let '(is_valid, entries_verified, message) := verify_chain st in
    (is_valid,
     [GetEntryCount; VerifyChain]
       ++ (if verbose then [GetLatestEntries count] else [])).

(** [main]: [sys.exit(0 if is_valid else 1)] *)
Definition main (st : store) (verbose : bool) : Z :=
  let is_valid := (run_audit st verbose).1 in
  if is_valid then 0 else 1.

End Audit.

(** ** Direct edits of the storage, and a sample ledger *)

Module Sample.
Import Py Json Ledger.

(** [UPDATE ledger_entries SET previous_hash = h], past the service. *)
Definition set_previous_hash (h : string) (e : LedgerEntryDB) : LedgerEntryDB :=
  {| id := id e; sequence_number := sequence_number e; previous_hash := h;
     entry_hash := entry_hash e; timestamp := timestamp e;
     entry_type := entry_type e; author_role := author_role e;
     author_member_id := author_member_id e; content := content e;
     supersedes := supersedes e;
     emergency_designation := emergency_designation e |}.

(** [UPDATE ledger_entries SET sequence_number = n], past the service. *)
Definition set_sequence_number (n : Z) (e : LedgerEntryDB) : LedgerEntryDB :=
  {| id := id e; sequence_number := n; previous_hash := previous_hash e;
     entry_hash := entry_hash e; timestamp := timestamp e;
     entry_type := entry_type e; author_role := author_role e;
     author_member_id := author_member_id e; content := content e;
     supersedes := supersedes e;
     emergency_designation := emergency_designation e |}.

(** [UPDATE ledger_entries SET entry_hash = h], past the service. *)
Definition set_entry_hash (h : string) (e : LedgerEntryDB) : LedgerEntryDB :=
  {| id := id e; sequence_number := sequence_number e;
     previous_hash := previous_hash e;
     entry_hash := h; timestamp := timestamp e;
     entry_type := entry_type e; author_role := author_role e;
     author_member_id := author_member_id e; content := content e;
     supersedes := supersedes e;
     emergency_designation := emergency_designation e |}.

(** [UPDATE ledger_entries SET content = c], past the service. *)
Definition set_content (c : value) (e : LedgerEntryDB) : LedgerEntryDB :=
  {| id := id e; sequence_number := sequence_number e;
     previous_hash := previous_hash e;
     entry_hash := entry_hash e; timestamp := timestamp e;
     entry_type := entry_type e; author_role := author_role e;
     author_member_id := author_member_id e; content := c;
     supersedes := supersedes e;
     emergency_designation := emergency_designation e |}.

(** The message carries the words [sequence n]. *)
Definition names_sequence (message : string) (n : Z) : bool :=
  contains ("sequence " +:+ str_int n) message.

(** The scenario of the specification: [initialize], then two appends, on
    PostgreSQL with sessions in UTC.  The ids are 1 to 4 and 7, the clock
    stands at noon. *)
Definition utc : Storage := Postgres.storage 0.

Definition noon : datetime := Datetime 2024 1 1 12 0 0 0 (Some 0).

Definition genesis_row : LedgerEntryDB :=
  stored (DB:=utc) (_create_genesis_block 1 2 noon).

Definition alpha_row : LedgerEntryDB :=
  {| id := 3; sequence_number := 1;
     previous_hash := "2f67c7af9c5984b6b08353bee7a2f2d598a77059faae1f8effa0e3cc0fc62a6b";
     entry_hash := "3c099473470c0bb452da7b9b942f145c963737d447078c76f64dc5bbbce2431e";
     timestamp := noon; entry_type := "executive_action";
     author_role := "operations_executive"; author_member_id := 7;
     content := JDict [("action", JStr "alpha")]; supersedes := None;
     emergency_designation := false |}.

Definition beta_row : LedgerEntryDB :=
  {| id := 4; sequence_number := 2;
     previous_hash := "3c099473470c0bb452da7b9b942f145c963737d447078c76f64dc5bbbce2431e";
     entry_hash := "87d85e9653ff6623109944529e0f79b326cab84c8dc670277f5689079d362bd5";
     timestamp := noon; entry_type := "executive_action";
     author_role := "operations_executive"; author_member_id := 7;
     content := JDict [("action", JStr "beta")]; supersedes := None;
     emergency_designation := false |}.

Definition ledger0 : store := [genesis_row].
Definition ledger1 : store := [genesis_row; alpha_row].
Definition ledger2 : store := [genesis_row; alpha_row; beta_row].

(** The row [alpha_row] after [UPDATE ... SET content = {"action": "omega"}]. *)
Definition omega_row : LedgerEntryDB :=
  set_content (JDict [("action", JStr "omega")]) alpha_row.

(** One content written with its keys in two orders. *)
Definition nested : value :=
  JDict [("a", JInt 1); ("b", JDict [("x", JNull); ("y", JBool true)])].
Definition nested_reordered : value :=
  JDict [("b", JDict [("y", JBool true); ("x", JNull)]); ("a", JInt 1)].

(** The sample ledger after [UPDATE ... SET previous_hash = '11...1'] on
    the genesis row. *)
Definition ledger2_edited : store :=
  [set_previous_hash (string_of_list_ascii (replicate 64 "1"%char)) genesis_row;
   alpha_row; beta_row].

Definition ones : string := string_of_list_ascii (replicate 64 "1"%char).

(** A content with the [float] [1e16], and the row that the table returns
    after [append] of it on [ledger0]: the hash is the one of the content
    as written, the content is the one read back. *)
Definition float_content : value := JDict [("amount", JFloat "1e+16")].

Definition float_row : LedgerEntryDB :=
  {| id := 3; sequence_number := 1;
     previous_hash := "2f67c7af9c5984b6b08353bee7a2f2d598a77059faae1f8effa0e3cc0fc62a6b";
     entry_hash := "d4783aa30ddeed8e940cb2c85296b60806df849d134237a196d215b993db0d6f";
     timestamp := noon; entry_type := "executive_action";
     author_role := "operations_executive"; author_member_id := 7;
     content := JDict [("amount", JInt 10000000000000000)]; supersedes := None;
     emergency_designation := false |}.

Definition ledger_float : store := [genesis_row; float_row].

(** PostgreSQL with sessions one hour east of UTC, and the table after
    [initialize] there: the genesis row comes back at 13:00+01:00. *)
Definition cet : Storage := Postgres.storage 60.

Definition ledger_cet : store :=
  [stored (DB:=cet) (_create_genesis_block 1 2 noon)].

End Sample.

(** ** The read operations of the service ([ledger/service.py]) *)

Module Reads.
Import Py Json Ledger.

(** [LedgerService.get_entry] *)
Definition get_entry (entry_id : UUID) (st : store)
    : result (option LedgerEntryDB) :=
  scalar_one_or_none (filter (fun e => id e = entry_id) st).

(** [LedgerService.get_by_sequence] *)
Definition get_by_sequence (n : Z) (st : store)
    : result (option LedgerEntryDB) :=
  scalar_one_or_none (filter (fun e => sequence_number e = n) st).



End Reads.

(** ** The entry model of [constitution/schema.py] and the type enum of
    [ledger/models.py] *)

Module Schema.
Import Py Json.

(** [LedgerEntryType] *)
Inductive LedgerEntryType :=
  | DECLARATION | CONSTITUTION | TECHNICAL_CHARTER | AMENDMENT
  | SESSION_OPENING | DELIBERATION_SUBMISSION | VOTE_RECORD | SESSION_RECORD
  | STANDING_ORDER
  | EXECUTIVE_ACTION
  | JUDICIAL_OPINION | PETITION | PETITION_RESPONSE | INJUNCTION
  | MONETARY_POLICY_DIRECTIVE
  | MEMBERSHIP_ADMISSION | INSTANTIATION_RECORD | NATURALIZATION
  | EMERGENCY_ACTIVATION | EMERGENCY_ACTION | EMERGENCY_DEACTIVATION
  | POST_EMERGENCY_REVIEW
  | CONSTITUTIONAL_REVIEW
  | GENESIS.

(** [t.value] *)
Definition value_of (t : LedgerEntryType) : string :=
  match t with
  | DECLARATION => "declaration"
  | CONSTITUTION => "constitution"
  | TECHNICAL_CHARTER => "technical_charter"
  | AMENDMENT => "amendment"
  | SESSION_OPENING => "session_opening"
  | DELIBERATION_SUBMISSION => "deliberation_submission"
  | VOTE_RECORD => "vote_record"
  | SESSION_RECORD => "session_record"
  | STANDING_ORDER => "standing_order"
  | EXECUTIVE_ACTION => "executive_action"
  | JUDICIAL_OPINION => "judicial_opinion"
  | PETITION => "petition"
  | PETITION_RESPONSE => "petition_response"
  | INJUNCTION => "injunction"
  | MONETARY_POLICY_DIRECTIVE => "monetary_policy_directive"
  | MEMBERSHIP_ADMISSION => "membership_admission"
  | INSTANTIATION_RECORD => "instantiation_record"
  | NATURALIZATION => "naturalization"
  | EMERGENCY_ACTIVATION => "emergency_activation"
  | EMERGENCY_ACTION => "emergency_action"
  | EMERGENCY_DEACTIVATION => "emergency_deactivation"
  | POST_EMERGENCY_REVIEW => "post_emergency_review"
  | CONSTITUTIONAL_REVIEW => "constitutional_review"
  | GENESIS => "genesis"
  end.

(** [list(LedgerEntryType)]: the members in the order they are declared. *)
Definition members : list LedgerEntryType :=
  [DECLARATION; CONSTITUTION; TECHNICAL_CHARTER; AMENDMENT;
   SESSION_OPENING; DELIBERATION_SUBMISSION; VOTE_RECORD; SESSION_RECORD;
   STANDING_ORDER; EXECUTIVE_ACTION;
   JUDICIAL_OPINION; PETITION; PETITION_RESPONSE; INJUNCTION;
   MONETARY_POLICY_DIRECTIVE;
   MEMBERSHIP_ADMISSION; INSTANTIATION_RECORD; NATURALIZATION;
   EMERGENCY_ACTIVATION; EMERGENCY_ACTION; EMERGENCY_DEACTIVATION;
   POST_EMERGENCY_REVIEW; CONSTITUTIONAL_REVIEW; GENESIS].

(** The Pydantic model [LedgerEntry]. *)
Record LedgerEntry := {
  id : UUID;
  sequence_number : Z;
  previous_hash : string;
  entry_hash : string;
  timestamp : datetime;
  entry_type : LedgerEntryType;
  author_role : string;
  author_member_id : UUID;
  content : value;
  supersedes : option UUID;
  emergency_designation : bool
}.

(** [LedgerEntry.compute_hash] *)
Definition compute_hash (self : LedgerEntry) : string :=
  let hashable := JDict [
    ("id", JStr (str_uuid (id self)));
    ("sequence_number", JInt (sequence_number self));
    ("previous_hash", JStr (previous_hash self));
    ("timestamp", JStr (isoformat (timestamp self)));
    ("entry_type", JStr (value_of (entry_type self)));
    ("author_role", JStr (author_role self));
    ("author_member_id", JStr (str_uuid (author_member_id self)));
    ("content", content self);
    ("supersedes",
       match supersedes self with Some u => JStr (str_uuid u) | None => JNull end);
    ("emergency_designation", JBool (emergency_designation self))
  ] in
  let canonical := dumps hashable in
  Sha256.sha256_hex (previous_hash self +:+ canonical).

Arguments compute_hash : simpl never.

End Schema.

Module Models.

(** [LedgerEntryTypeDB] *)
Inductive LedgerEntryTypeDB :=
  | GENESIS
  | DECLARATION | CONSTITUTION | TECHNICAL_CHARTER | AMENDMENT
  | SESSION_OPENING | DELIBERATION_SUBMISSION | VOTE_RECORD | SESSION_RECORD
  | STANDING_ORDER
  | EXECUTIVE_ACTION
  | JUDICIAL_OPINION | PETITION | PETITION_RESPONSE | INJUNCTION
  | MONETARY_POLICY_DIRECTIVE
  | MEMBERSHIP_ADMISSION | INSTANTIATION_RECORD | NATURALIZATION
  | EMERGENCY_ACTIVATION | EMERGENCY_ACTION | EMERGENCY_DEACTIVATION
  | POST_EMERGENCY_REVIEW
  | CONSTITUTIONAL_REVIEW.

(** [t.value] *)
Definition value_of (t : LedgerEntryTypeDB) : string :=
  match t with
  | GENESIS => "genesis"
  | DECLARATION => "declaration"
  | CONSTITUTION => "constitution"
  | TECHNICAL_CHARTER => "technical_charter"
  | AMENDMENT => "amendment"
  | SESSION_OPENING => "session_opening"
  | DELIBERATION_SUBMISSION => "deliberation_submission"
  | VOTE_RECORD => "vote_record"
  | SESSION_RECORD => "session_record"
  | STANDING_ORDER => "standing_order"
  | EXECUTIVE_ACTION => "executive_action"
  | JUDICIAL_OPINION => "judicial_opinion"
  | PETITION => "petition"
  | PETITION_RESPONSE => "petition_response"
  | INJUNCTION => "injunction"
  | MONETARY_POLICY_DIRECTIVE => "monetary_policy_directive"
  | MEMBERSHIP_ADMISSION => "membership_admission"
  | INSTANTIATION_RECORD => "instantiation_record"
  | NATURALIZATION => "naturalization"
  | EMERGENCY_ACTIVATION => "emergency_activation"
  | EMERGENCY_ACTION => "emergency_action"
  | EMERGENCY_DEACTIVATION => "emergency_deactivation"
  | POST_EMERGENCY_REVIEW => "post_emergency_review"
  | CONSTITUTIONAL_REVIEW => "constitutional_review"
  end.

(** [list(LedgerEntryTypeDB)] *)
Definition members : list LedgerEntryTypeDB :=
  [GENESIS; DECLARATION; CONSTITUTION; TECHNICAL_CHARTER; AMENDMENT;
   SESSION_OPENING; DELIBERATION_SUBMISSION; VOTE_RECORD; SESSION_RECORD;
   STANDING_ORDER; EXECUTIVE_ACTION;
   JUDICIAL_OPINION; PETITION; PETITION_RESPONSE; INJUNCTION;
   MONETARY_POLICY_DIRECTIVE;
   MEMBERSHIP_ADMISSION; INSTANTIATION_RECORD; NATURALIZATION;
   EMERGENCY_ACTIVATION; EMERGENCY_ACTION; EMERGENCY_DEACTIVATION;
   POST_EMERGENCY_REVIEW; CONSTITUTIONAL_REVIEW].

End Models.

(** ** The verbose listing of the audit tool ([ledger/audit.py], lines
    79-99) *)

Module Listing.
Import Py Json Ledger.

(** [str(d)] for a [datetime]: [d.isoformat(sep=" ")] *)
Definition str_datetime (d : datetime) : string :=
  zpad 4 (year d) +:+ "-" +:+ zpad 2 (month d) +:+ "-" +:+ zpad 2 (day d)
    +:+ " " +:+ zpad 2 (hour d) +:+ ":" +:+ zpad 2 (minute d)
    +:+ ":" +:+ zpad 2 (second d)
    +:+ (if microsecond d =? 0 then "" else "." +:+ zpad 6 (microsecond d))
    +:+ match utcoffset d with
        | None => ""
        | Some off =>
            (if off <? 0 then "-" else "+")
              +:+ zpad 2 (Z.abs off / 60) +:+ ":" +:+ zpad 2 (Z.abs off mod 60)
        end.

(** The cells of [table.add_row] for one entry. *)
Definition listing_row (entry : LedgerEntryDB) : list string :=
  [str_int (sequence_number entry);
   entry_type entry;
   author_role entry;
   slice_to 16 (entry_hash entry) +:+ "...";
   slice_to 19 (str_datetime (timestamp entry));
   if emergency_designation entry then "🚨 YES" else "—"].

(** The rows of the table that [run_audit] prints with [verbose]:
    [get_latest_entries(limit=count)], walked in reverse. *)
Definition verbose_listing (st : store) : list (list string) :=
  let count := get_entry_count st in
  let entries := get_latest_entries count st in
  listing_row <$> reverse entries.

End Listing.

(** ** Callers of the service: the custodian's verification
    ([agents/custodian/ledger_custodian.py]) and the action log of every
    agent ([agents/base.py]) *)

Module Callers.
Import Py Json Ledger.



Section Agents.
Context {DB : Storage}.


End Agents.

End Callers.

(** ** What [verify_chain] accepts *)

Module Edits.
Import Py Json Ledger Sample.

(** The last row of the sample ledger after its content was set to
    [{"action": "omega"}] and its stored hash to the hash of the new
    fields. *)
Definition rehashed_row : LedgerEntryDB :=
  set_entry_hash
    "806407f38be55d98f35565baf9d2654f0a3cc0ec95f77aca50609f824f82eb97"
    (set_content (JDict [("action", JStr "omega")]) beta_row).

End Edits.

Module Accepts.
Import Py Json Ledger.

(** The rows, in ascending sequence order, of a table that verifies: the
    first has sequence number 0 and names the 64 zeros, every row carries
    the hash of its fields, and every row but the first names the hash of
    the row before it. *)
Definition verified (l : list LedgerEntryDB) : Prop :=
  (exists first rest,
     l = first :: rest
     /\ sequence_number first = 0
     /\ previous_hash first = GENESIS_HASH)
  /\ (forall e, e ∈ l -> entry_hash e = recompute_hash e)
  /\ linked l.

(** Row [entry], at index [k] of [entries], passes the two checks of the
    loop of [verify_chain]. *)
Definition row_ok (entries : list LedgerEntryDB) (k : nat)
    (entry : LedgerEntryDB) : Prop :=
  entry_hash entry = recompute_hash entry
  /\ ((0 < k)%nat ->
      Some (previous_hash entry) = entry_hash <$> entries !! (k - 1)%nat).

(** A row that the storage, the column types and the constraints of the
    table accept. *)
Definition acceptable {DB : Storage} (st : store) (e : LedgerEntryDB) : Prop :=
  unstorable e = None
  /\ (-2147483648 <= sequence_number e <= 2147483647)
  /\ (char_length (previous_hash e) <= 64)%nat
  /\ (char_length (entry_hash e) <= 64)%nat
  /\ (char_length (entry_type e) <= 50)%nat
  /\ (char_length (author_role e) <= 100)%nat
  /\ (id e ∉ id <$> st)
  /\ (sequence_number e ∉ sequence_number <$> st)
  /\ (entry_hash e ∉ entry_hash <$> st)
  /\ (forall u, supersedes e = Some u -> u ∈ id <$> (st ++ [e])).

(** The row that [append] builds after [last_entry] (lines 194-224). *)
Definition next_row (last_entry : LedgerEntryDB) (et ar : string) (am : UUID)
    (c : value) (sup : option UUID) (em : bool) (eid : UUID) (ts : datetime)
    : LedgerEntryDB :=
  {| id := eid;
     sequence_number := sequence_number last_entry + 1;
     previous_hash := entry_hash last_entry;
     entry_hash :=
       _compute_hash eid (sequence_number last_entry + 1)
         (entry_hash last_entry) ts et ar am c sup em;
     timestamp := ts;
     entry_type := et;
     author_role := ar;
     author_member_id := am;
     content := c;
     supersedes := sup;
     emergency_designation := em |}.

(** [all(c in "0123456789abcdef" for c in h)] *)
Definition lower_hex (h : string) : bool :=
  forallb (fun c => contains (String c EmptyString) "0123456789abcdef")
    (list_ascii_of_string h).

End Accepts.

(** * Properties *)

Module ListFacts.

(** In a list without two elements of one key, the key names the element. *)
Lemma same_key_same_item {A K} (f : A -> K) (l : list A) x y :
  NoDup (f <$> l) -> x ∈ l -> y ∈ l -> f x = f y -> x = y.
Proof.
  induction l as [|z l IH]; intros Hnd Hx Hy Hk.
  - inversion Hx.
  - rewrite fmap_cons in Hnd. apply NoDup_cons in Hnd as [Hz Hnd].
    apply elem_of_cons in Hx as [->|Hx]; apply elem_of_cons in Hy as [->|Hy];
      try done.
    + exfalso. apply Hz. rewrite Hk. by apply list_elem_of_fmap_2.
    + exfalso. apply Hz. rewrite <- Hk. by apply list_elem_of_fmap_2.
    + by apply IH.
Qed.

Lemma filter_none {A} (P : A -> Prop) `{forall x, Decision (P x)} (l : list A) :
  Forall (fun x => ~ P x) l -> filter P l = [].
Proof.
  induction 1 as [|x l Hx _ IH]; [done|]. by rewrite filter_cons_False.
Qed.

(** A key that names its row selects that row and no other. *)
Lemma filter_key {A K} (f : A -> K) `{EqDecision K} (l : list A) x :
  NoDup (f <$> l) -> x ∈ l -> filter (fun y => f y = f x) l = [x].
Proof.
  induction l as [|z l IH]; intros Hnd Hx; [inversion Hx|].
  rewrite fmap_cons in Hnd. apply NoDup_cons in Hnd as [Hz Hnd].
  apply elem_of_cons in Hx as [->|Hx].
  - rewrite filter_cons_True by done. f_equal.
    apply filter_none, Forall_forall. intros y Hy Heq.
    apply Hz. rewrite <- Heq. by apply list_elem_of_fmap_2.
  - rewrite filter_cons_False; [by apply IH|].
    intros Heq. apply Hz. rewrite Heq. by apply list_elem_of_fmap_2.
Qed.

Lemma filter_no_key {A K} (f : A -> K) `{EqDecision K} (l : list A) k :
  k ∉ (f <$> l) -> filter (fun y => f y = k) l = [].
Proof.
  intros Hk. apply filter_none, Forall_forall. intros y Hy Heq.
  apply Hk. rewrite <- Heq. by apply list_elem_of_fmap_2.
Qed.

End ListFacts.

(** ** The hash engine *)

Module JsonFacts.
Import Py Json ListFacts.

Example dumps_sorts_keys :
  dumps (JDict [("b", JInt 1); ("a", JList [JNull; JBool true; JInt (-5)])])
  = "{" +:+ dquote +:+ "a" +:+ dquote +:+ ": [null, true, -5], "
      +:+ dquote +:+ "b" +:+ dquote +:+ ": 1}".
Proof. vm_compute. reflexivity. Qed.

Example encode_str_escapes :
  encode_str "é—😀\"
  = dquote +:+ "\u00e9\u2014\ud83d\ude00\\" +:+ dquote.
Proof. vm_compute. reflexivity. Qed.

#[local] Instance key_le_trans : Transitive key_le.
Proof. intros a b c. unfold key_le. apply transitivity. Qed.

#[local] Instance key_le_total : Total key_le.
Proof. intros a b. unfold key_le. apply total, _. Qed.

(** Sorting by key forgets the order the items came in. *)
Lemma sort_items_perm l l' :
  l ≡ₚ l' -> NoDup l.*1 -> sort_items l = sort_items l'.
Proof.
  intros Hp Hnd. unfold sort_items.
  apply (Sorted_unique_strong key_le).
  - intros x y Hx Hy Hxy Hyx.
    rewrite merge_sort_Permutation in Hx.
    rewrite merge_sort_Permutation, <- Hp in Hy.
    apply (same_key_same_item fst l); try done.
    unfold key_le in *. by apply (anti_symm String.le).
  - apply Sorted_merge_sort, _.
  - apply Sorted_merge_sort, _.
  - by rewrite !merge_sort_Permutation.
Qed.

Lemma keys_of_encoded (items : list (string * value)) :
  ((fun kv => (kv.1, dumps kv.2)) <$> items).*1 = items.*1.
Proof. induction items as [|[k v] items IH]; simpl; by f_equal. Qed.

Lemma wf_dict items :
  wf (JDict items) = true <->
  NoDup items.*1 /\ Forall (fun kv => wf kv.2 = true) items.
Proof.
  simpl. rewrite andb_true_iff, bool_decide_eq_true, forallb_forall, Forall_forall.
  split; intros [? H]; split; try done; intros x Hx; apply H;
    by apply list_elem_of_In.
Qed.

Lemma wf_list l : wf (JList l) = true <-> Forall (fun v => wf v = true) l.
Proof.
  simpl. rewrite forallb_forall, Forall_forall.
  split; intros H x Hx; apply H; by apply list_elem_of_In.
Qed.

(** Documents that differ in key order only have one encoding. *)
Lemma dumps_reorder u v :
  reorder u v -> wf u = true -> wf v = true /\ dumps u = dumps v.
Proof.
  induction 1 as [v|u v w _ IH1 _ IH2|items items' Hp
                  |before k v v' after _ IH|before v v' after _ IH]; intros Hwf.
  - done.
  - destruct (IH1 Hwf) as [Hv E1]. destruct (IH2 Hv) as [Hw E2].
    split; [done|congruence].
  - apply wf_dict in Hwf as [Hnd Hall]. split.
    + apply wf_dict. split; by rewrite <- Hp.
    + simpl.
      rewrite (sort_items_perm _ ((fun kv => (kv.1, dumps kv.2)) <$> items'));
        [done| |].
      * by apply fmap_Permutation.
      * by rewrite keys_of_encoded.
  - apply wf_dict in Hwf as [Hnd Hall].
    apply Forall_app in Hall as [Hb Hall]. apply Forall_cons in Hall as [Hv Ha].
    destruct (IH Hv) as [Hv' E]. split.
    + apply wf_dict. split.
      * by rewrite fmap_app, fmap_cons in *.
      * apply Forall_app. split; [done|]. by apply Forall_cons.
    + simpl. rewrite !fmap_app, !fmap_cons. simpl. by rewrite E.
  - apply wf_list in Hwf.
    apply Forall_app in Hwf as [Hb Hall]. apply Forall_cons in Hall as [Hv Ha].
    destruct (IH Hv) as [Hv' E]. split.
    + apply wf_list. apply Forall_app. split; [done|]. by apply Forall_cons.
    + simpl. rewrite !fmap_app, !fmap_cons. by rewrite E.
Qed.

End JsonFacts.

(** ** The digest is 64 characters long *)

Module Sha256Facts.
Import Py Sha256.

(** The test vectors of FIPS 180-4 of one and of two blocks. *)
Example sha256_abc :
  sha256_hex "abc"
  = "ba7816bf8f01cfea414140de5dae2223b00361a396177a9cb410ff61f20015ad".
Proof. vm_compute. reflexivity. Qed.

Example sha256_two_blocks :
  sha256_hex "abcdbcdecdefdefgefghfghighijhijkijkljklmklmnlmnomnopnopq"
  = "248d6a61d20638b8e5c026930c3e6039a33ce45964ff2167f6ecedd419db06c1".
Proof. vm_compute. reflexivity. Qed.

Lemma length_app (s1 s2 : string) :
  String.length (s1 +:+ s2) = (String.length s1 + String.length s2)%nat.
Proof. induction s1 as [|c s1 IH]; simpl; [done|]. by rewrite IH. Qed.

Lemma length_hex_of n v : String.length (hex_of n v) = n.
Proof.
  revert v. induction n as [|n IH]; intros v; simpl; [done|].
  rewrite length_app, IH. simpl. lia.
Qed.

Lemma length_compress h block : length h = 8%nat -> length (compress h block) = 8%nat.
Proof. intros Hh. unfold compress. rewrite length_zip_with. simpl. lia. Qed.

Lemma length_blocks fuel h ws : length h = 8%nat -> length (blocks fuel h ws) = 8%nat.
Proof.
  revert h ws. induction fuel as [|fuel IH]; intros h ws Hh; simpl; [done|].
  destruct ws; [done|]. apply IH. by apply length_compress.
Qed.

Lemma length_hexdigest msg : String.length (hexdigest msg) = 64%nat.
Proof.
  unfold hexdigest.
  assert (H : length (digest msg) = 8%nat) by by apply length_blocks.
  assert (G : forall l : list Z,
    String.length (foldr (fun w acc => hex_of 8 w +:+ acc) EmptyString l)
    = (8 * length l)%nat).
  { induction l as [|w l IH]; [done|].
    cbn [foldr length]. rewrite length_app, length_hex_of, IH. lia. }
  rewrite G, H. done.
Qed.

Lemma length_sha256_hex s : String.length (sha256_hex s) = 64%nat.
Proof. apply length_hexdigest. Qed.

End Sha256Facts.

(** ** The table and its queries *)

Module StoreFacts.
Import Py Json Ledger ListFacts.

#[export] Instance seq_le_trans : Transitive seq_le.
Proof. intros a b c. unfold seq_le. lia. Qed.
#[export] Instance seq_le_total : Total seq_le.
Proof. intros a b. unfold seq_le. lia. Qed.
#[export] Instance seq_ge_trans : Transitive seq_ge.
Proof. intros a b c. unfold seq_ge. lia. Qed.
#[export] Instance seq_ge_total : Total seq_ge.
Proof. intros a b. unfold seq_ge. lia. Qed.

Lemma char_length_le s : (char_length s <= String.length s)%nat.
Proof. induction s as [|c s IH]; simpl; [done|]. destruct (is_cont c); lia. Qed.

Lemma char_length_hash et ar am c sup em eid seq prev ts :
  (char_length (_compute_hash eid seq prev ts et ar am c sup em) <= 64)%nat.
Proof.
  etrans; [apply char_length_le|].
  unfold _compute_hash. by rewrite Sha256Facts.length_sha256_hex.
Qed.

(** The digest depends on the content and on the timestamp through their
    serialisations only. *)
Lemma compute_hash_serialised eid seq prev ts ts' et ar am c c' sup em :
  dumps c = dumps c' -> isoformat ts = isoformat ts' ->
  _compute_hash eid seq prev ts et ar am c sup em
  = _compute_hash eid seq prev ts' et ar am c' sup em.
Proof.
  intros Ec Et. unfold _compute_hash.
  cbn [dumps fmap list_fmap fst snd]. by rewrite Ec, Et.
Qed.

(** The first row of the descending query is a tip. *)
Lemma select_desc_head st :
  match select_desc st with
  | [] => st = []
  | tip :: _ => is_tip st tip
  end.
Proof.
  unfold select_desc.
  pose proof (merge_sort_Permutation seq_ge st) as Hp.
  pose proof (StronglySorted_merge_sort seq_ge st) as Hs.
  destruct (merge_sort seq_ge st) as [|tip rest].
  - by apply Permutation_nil.
  - split.
    + rewrite <- Hp. by left.
    + intros x Hx. rewrite <- Hp in Hx.
      apply StronglySorted_inv in Hs as [_ Hall].
      apply elem_of_cons in Hx as [->|Hx]; [done|].
      rewrite Forall_forall in Hall. by apply Hall.
Qed.

(** [append_read] returns a tip, or raises on the empty table. *)
Lemma append_read_spec st :
  (st = [] /\
   append_read st =
     (st, Raise (LedgerIntegrityError
        "Cannot append: no genesis block found. Call initialize() first.")))
  \/ (exists tip, is_tip st tip /\ append_read st = (st, Ok tip)).
Proof.
  unfold append_read, sbind, select_last, raise, ret.
  pose proof (select_desc_head st) as H.
  destruct (select_desc st) as [|tip rest]; simpl.
  - left. by subst.
  - right. by exists tip.
Qed.

Section Commits.
Context {DB : Storage}.

(** A commit that succeeds adds the row, as the storage returns it, at the
    end and nothing else; the storage holds its values, and the row
    clashes with no stored sequence number, hash or id. *)
Lemma add_commit_ok e st st' u :
  add_commit e st = (st', Ok u) ->
  st' = st ++ [stored e]
  /\ unstorable e = None
  /\ (sequence_number e ∉ sequence_number <$> st)
  /\ (entry_hash e ∉ entry_hash <$> st)
  /\ (id e ∉ id <$> st).
Proof.
  unfold add_commit, violation. intros H.
  repeat (case_match; simplify_eq);
    repeat match goal with
           | H : bool_decide _ = false |- _ => apply bool_decide_eq_false in H
           end; done.
Qed.

(** A commit that raises leaves the table as it was. *)
Lemma add_commit_raise e st st' x :
  add_commit e st = (st', Raise x) -> st' = st.
Proof. unfold add_commit. intros H. by case_match; simplify_eq. Qed.

(** What a commit raises comes from the storage, not from the service. *)
Lemma add_commit_raise_kind e st st' x :
  add_commit e st = (st', Raise x) ->
  forall msg, x <> LedgerIntegrityError msg.
Proof.
  unfold add_commit, violation, refusal_exn. intros H msg.
  repeat (case_match; simplify_eq); done.
Qed.

(** A row whose sequence number is taken is refused. *)
Lemma add_commit_taken e st :
  sequence_number e ∈ sequence_number <$> st ->
  exists x, add_commit e st = (st, Raise x).
Proof.
  intros Hin. unfold add_commit, violation.
  rewrite (bool_decide_eq_true_2 _ Hin).
  repeat (case_match; simplify_eq); eauto.
Qed.

(** After the commit of a row, [refresh] returns it as the storage does. *)
Lemma refresh_stored e st :
  id e ∉ (id <$> st) ->
  refresh e (st ++ [stored e]) = (st ++ [stored e], Ok (stored e)).
Proof.
  intros Hid. unfold refresh.
  rewrite filter_app, (filter_no_key id st (id e) Hid).
  by rewrite filter_cons_True by reflexivity.
Qed.

(** A row whose serialised content and timestamp the storage keeps
    carries its hash after the commit as before. *)
Lemma stored_hashed e :
  round_trips (content e) (timestamp e) ->
  entry_hash e = recompute_hash e ->
  entry_hash (stored e) = recompute_hash (stored e).
Proof.
  intros [Ec Et] He. unfold recompute_hash, stored.
  cbn [id sequence_number previous_hash entry_hash timestamp entry_type
       author_role author_member_id content supersedes emergency_designation].
  rewrite He. unfold recompute_hash. symmetry.
  by apply compute_hash_serialised.
Qed.

End Commits.

End StoreFacts.

(** ** The chain that [initialize] and [append] build *)

Module ChainFacts.
Import Py Json Ledger Accepts ListFacts StoreFacts.

(** Reduce the projections of a row that is written out. *)
Ltac fields :=
  cbn [id sequence_number previous_hash entry_hash timestamp entry_type
       author_role author_member_id content supersedes emergency_designation].

Lemma indexed_inj st i j a :
  indexed st -> st !! i = Some a -> st !! j = Some a -> i = j.
Proof. intros Hi Ha Hb. apply Hi in Ha, Hb. lia. Qed.

Lemma indexed_elem st a b :
  indexed st -> a ∈ st -> b ∈ st -> sequence_number a = sequence_number b -> a = b.
Proof.
  intros Hi [i Ha]%list_elem_of_lookup [j Hb]%list_elem_of_lookup Hs.
  pose proof (Hi _ _ Ha). pose proof (Hi _ _ Hb).
  assert (i = j) as -> by lia. congruence.
Qed.

Lemma indexed_tail e st :
  indexed (e :: st) ->
  forall (i : nat) x, st !! i = Some x -> sequence_number x = Z.of_nat (S i).
Proof. intros Hi i x Hx. by apply (Hi (S i)). Qed.

Lemma sorted_from (k : nat) (st : store) :
  (forall (i : nat) x, st !! i = Some x -> sequence_number x = Z.of_nat (k + i)) ->
  Sorted seq_le st.
Proof.
  revert k. induction st as [|e st IH]; intros k Hk; [constructor|].
  constructor.
  - apply (IH (S k)). intros i x Hx.
    rewrite (Hk (S i) x Hx). f_equal. lia.
  - destruct st as [|e' st]; constructor. unfold seq_le.
    rewrite (Hk 0%nat e eq_refl), (Hk 1%nat e' eq_refl). lia.
Qed.

(** A table whose rows are numbered by position is read back, in ascending
    order, as it is. *)
Lemma indexed_select_asc st : indexed st -> select_asc st = st.
Proof.
  intros Hi. unfold select_asc.
  apply (Sorted_unique_strong seq_le).
  - intros x y Hx Hy Hxy Hyx. rewrite merge_sort_Permutation in Hx.
    apply (indexed_elem st); try done. unfold seq_le in *. lia.
  - apply Sorted_merge_sort, _.
  - by apply (sorted_from 0).
  - apply merge_sort_Permutation.
Qed.

Lemma indexed_seqs st :
  indexed st -> sequence_number <$> st = Z.of_nat <$> seq 0 (length st).
Proof.
  intros Hi. apply list_eq. intros i.
  rewrite !list_lookup_fmap.
  destruct (st !! i) as [e|] eqn:He; simpl.
  - rewrite (Hi _ _ He).
    rewrite lookup_seq_lt; [done|]. by apply lookup_lt_Some in He.
  - apply lookup_ge_None in He. by rewrite lookup_seq_ge.
Qed.

Lemma indexed_NoDup st : indexed st -> NoDup (sequence_number <$> st).
Proof.
  intros Hi. rewrite (indexed_seqs _ Hi).
  apply NoDup_fmap; [apply _|apply NoDup_seq].
Qed.

(** A row that a commit accepts after some row of a chain follows the last
    row of the chain. *)
Lemma accepted_after_tip st tip e :
  indexed st -> tip ∈ st ->
  sequence_number e = sequence_number tip + 1 ->
  sequence_number e ∉ (sequence_number <$> st) ->
  sequence_number e = Z.of_nat (length st)
  /\ st !! (length st - 1)%nat = Some tip.
Proof.
  intros Hi [j Hj]%list_elem_of_lookup He Hfresh.
  pose proof (Hi _ _ Hj) as Hseq.
  pose proof (lookup_lt_Some _ _ _ Hj) as Hlt.
  destruct (decide (S j < length st)%nat) as [Hin|Hout].
  - exfalso. apply Hfresh.
    destruct (lookup_lt_is_Some_2 st (S j) Hin) as [x Hx].
    apply list_elem_of_fmap. exists x. split.
    + rewrite (Hi _ _ Hx). lia.
    + by apply list_elem_of_lookup_2 in Hx.
  - assert (length st - 1 = j)%nat as -> by lia. split; [lia|done].
Qed.

(** The row that [append] builds carries the hash of its fields. *)
Lemma next_row_hashed tip et ar am c sup em eid ts :
  entry_hash (next_row tip et ar am c sup em eid ts)
  = recompute_hash (next_row tip et ar am c sup em eid ts).
Proof. unfold recompute_hash, next_row. by fields. Qed.

Lemma genesis_block_hashed gid sid ts :
  entry_hash (_create_genesis_block gid sid ts)
  = recompute_hash (_create_genesis_block gid sid ts).
Proof. unfold recompute_hash, _create_genesis_block. by fields. Qed.

Section Chains.
Context {DB : Storage}.

(** [append_write] by what the commit answers. *)
Lemma append_write_next last_entry et ar am c sup em eid ts st :
  append_write last_entry et ar am c sup em eid ts st
  = match violation st (next_row last_entry et ar am c sup em eid ts) with
    | Some x => (st, Raise x)
    | None =>
        (st ++ [stored (next_row last_entry et ar am c sup em eid ts)],
         Ok (stored (next_row last_entry et ar am c sup em eid ts)))
    end.
Proof.
  unfold append_write, sbind.
  change {| id := eid;
            sequence_number := sequence_number last_entry + 1;
            previous_hash := entry_hash last_entry;
            entry_hash :=
              _compute_hash eid (sequence_number last_entry + 1)
                (entry_hash last_entry) ts et ar am c sup em;
            timestamp := ts; entry_type := et; author_role := ar;
            author_member_id := am; content := c; supersedes := sup;
            emergency_designation := em |}
    with (next_row last_entry et ar am c sup em eid ts).
  set (row := next_row last_entry et ar am c sup em eid ts).
  destruct (add_commit row st) as [st1 [[]|x]] eqn:Hc.
  - pose proof (add_commit_ok _ _ _ _ Hc) as (-> & _ & _ & _ & Hid).
    unfold add_commit in Hc. destruct (violation st row); [done|].
    by apply refresh_stored.
  - unfold add_commit in Hc. destruct (violation st row); by simplify_eq.
Qed.

Lemma append_write_inv tip et ar am c sup em eid ts st st' r :
  append_write tip et ar am c sup em eid ts st = (st', r) ->
  (exists x, r = Raise x /\ st' = st
     /\ forall msg, x <> LedgerIntegrityError msg)
  \/ (exists e, r = Ok e /\ st' = st ++ [e]
        /\ e = stored (next_row tip et ar am c sup em eid ts)
        /\ unstorable (next_row tip et ar am c sup em eid ts) = None
        /\ sequence_number e = sequence_number tip + 1
        /\ previous_hash e = entry_hash tip
        /\ (sequence_number e ∉ sequence_number <$> st)
        /\ (entry_hash e ∉ entry_hash <$> st)
        /\ (id e ∉ id <$> st)).
Proof.
  rewrite append_write_next. intros H.
  set (row := next_row tip et ar am c sup em eid ts) in *.
  destruct (add_commit row st) as [st1 [[]|x]] eqn:Hc.
  - pose proof (add_commit_ok _ _ _ _ Hc) as (_ & ? & ? & ? & ?).
    unfold add_commit in Hc. destruct (violation st row); simplify_eq.
    right. exists (stored row). by split_and!.
  - pose proof (add_commit_raise_kind _ _ _ _ Hc) as Hk.
    unfold add_commit in Hc. destruct (violation st row); simplify_eq.
    left. eauto.
Qed.

(** A commit keeps the chain a chain, whichever row of it was read as tip. *)
Lemma chain_append_write tip et ar am c sup em eid ts st st' r :
  chain st -> tip ∈ st ->
  append_write tip et ar am c sup em eid ts st = (st', r) ->
  chain st'.
Proof.
  intros Hc Htip H.
  apply append_write_inv in H
    as [(x & -> & -> & _)|(e & -> & -> & _ & _ & Hs & Hp & Hf & Hu & _)];
    [done|].
  destruct Hc as [Hne Hi Hg Hl Hnd].
  destruct (accepted_after_tip st tip e Hi Htip Hs Hf) as [Hlen Hlast].
  assert (0 < length st)%nat by (destruct st; [done|simpl; lia]).
  split.
  - by destruct st.
  - intros i x Hx. apply lookup_app_Some in Hx as [Hx|[Hge Hx]]; [by apply Hi|].
    apply list_lookup_singleton_Some in Hx as [Hz ->]. rewrite Hlen. f_equal. lia.
  - intros x Hx. apply Hg. by rewrite lookup_app_l in Hx by lia.
  - intros i p x Hp' Hx.
    apply lookup_app_Some in Hx as [Hx|[Hge Hx]].
    + apply (Hl i); [|done].
      rewrite lookup_app_l in Hp'; [done|]. apply lookup_lt_Some in Hx. lia.
    + apply list_lookup_singleton_Some in Hx as [Hz ->].
      assert (i = length st - 1)%nat as -> by lia.
      rewrite lookup_app_l in Hp' by lia. congruence.
  - rewrite fmap_app. apply NoDup_app. split_and!; [done| |apply NoDup_singleton].
    intros h Hin Hin'. apply list_elem_of_singleton in Hin' as ->. done.
Qed.

(** A commit of a row that round-trips keeps every row hashed. *)
Lemma hashed_append_write tip et ar am c sup em eid ts st st' r :
  hashed st -> round_trips c ts ->
  append_write tip et ar am c sup em eid ts st = (st', r) ->
  hashed st'.
Proof.
  intros Hh Hrt H.
  apply append_write_inv in H
    as [(x & -> & -> & _)|(e & -> & -> & -> & _)]; [done|].
  intros x Hx. apply elem_of_app in Hx as [Hx|Hx]; [by apply Hh|].
  apply list_elem_of_singleton in Hx as ->.
  apply stored_hashed; [done|apply next_row_hashed].
Qed.

(** [initialize] by the rows with sequence number 0 that it finds. *)
Lemma initialize_unfold gid sid ts st :
  initialize gid sid ts st =
  match filter (fun e => sequence_number e = 0) st with
  | [] => add_commit (_create_genesis_block gid sid ts) st
  | [_] => (st, Ok tt)
  | _ => (st, Raise MultipleResultsFound)
  end.
Proof.
  unfold initialize, sbind, select_genesis.
  by destruct (filter (fun e => sequence_number e = 0) st) as [|x [|y l]].
Qed.

(** On an empty table [initialize] that returns has stored the genesis
    row. *)
Lemma initialize_empty gid sid ts st :
  initialize gid sid ts [] = (st, Ok tt) ->
  st = [stored (_create_genesis_block gid sid ts)].
Proof.
  rewrite initialize_unfold. cbn [filter list_filter].
  by intros (-> & _)%add_commit_ok.
Qed.

(** The genesis row passes every column type and constraint of an empty
    table when the storage holds its values. *)
Lemma genesis_accepted gid sid ts :
  unstorable (_create_genesis_block gid sid ts) = None ->
  initialize gid sid ts []
  = ([stored (_create_genesis_block gid sid ts)], Ok tt).
Proof.
  intros Hu. rewrite initialize_unfold. cbn [filter list_filter].
  unfold add_commit, violation. rewrite Hu.
  unfold _create_genesis_block at 1 2 3 4 5 6 7 8 9. fields.
  pose proof (char_length_hash "genesis" "system" sid genesis_content None false
                gid 0 GENESIS_HASH ts) as Hh.
  apply Nat.leb_le in Hh. rewrite Hh. reflexivity.
Qed.

Lemma chain_genesis_block gid sid ts :
  chain [stored (_create_genesis_block gid sid ts)].
Proof.
  split.
  - done.
  - intros [|i] e He; simplify_eq/=; done.
  - intros e He. by simplify_eq/=.
  - intros [|i] p e Hp He; simplify_eq/=.
  - apply NoDup_singleton.
Qed.

(** A chain has one row with sequence number 0: its first. *)
Lemma chain_one_genesis st :
  chain st ->
  exists g, st !! 0%nat = Some g
    /\ filter (fun e => sequence_number e = 0) st = [g].
Proof.
  intros [Hne Hi _ _ _]. destruct st as [|g rest]; [done|]. clear Hne.
  exists g. split; [done|].
  rewrite filter_cons_True by apply (Hi 0%nat g eq_refl).
  f_equal. apply filter_none, Forall_forall.
  intros x [i Hx]%list_elem_of_lookup.
  rewrite (indexed_tail _ _ Hi i x Hx). lia.
Qed.

(** On a chain [initialize] finds the genesis row and writes nothing. *)
Lemma initialize_chain gid sid ts st :
  chain st -> initialize gid sid ts st = (st, Ok tt).
Proof.
  intros (g & _ & Hf)%chain_one_genesis.
  by rewrite initialize_unfold, Hf.
Qed.

Lemma append_inv et ar am c sup em eid ts st st' r :
  append et ar am c sup em eid ts st = (st', r) ->
  (st = [] /\ st' = []
   /\ r = Raise (LedgerIntegrityError
            "Cannot append: no genesis block found. Call initialize() first."))
  \/ (exists tip, is_tip st tip
        /\ append_write tip et ar am c sup em eid ts st = (st', r)).
Proof.
  unfold append, sbind at 1. intros H.
  destruct (append_read_spec st) as [[-> Hr]|(tip & Htip & Hr)];
    rewrite Hr in H; simplify_eq; eauto.
Qed.

(** Every table that is reached is a chain. *)
Lemma reachable_chain st : reachable st -> chain st.
Proof.
  induction 1 as [gid sid ts st H
                 |et ar am c sup em eid ts st st' r _ IH H
                 |gid sid ts st st' r _ IH H].
  - apply initialize_empty in H as ->. apply chain_genesis_block.
  - apply append_inv in H as [(-> & -> & _)|(tip & [Htip _] & Hw)]; [done|].
    by eapply chain_append_write.
  - rewrite (initialize_chain _ _ _ _ IH) in H. by simplify_eq.
Qed.

(** A table built from contents and timestamps that round-trip is reached,
    and every row of it carries the hash of its fields. *)
Lemma built_reachable st : built st -> reachable st.
Proof.
  induction 1 as [gid sid ts st _ H
                 |et ar am c sup em eid ts st st' r _ IH _ H
                 |gid sid ts st st' r _ IH H].
  - by eapply reach_genesis.
  - by eapply reach_append.
  - by eapply reach_initialize.
Qed.

Lemma built_hashed st : built st -> hashed st.
Proof.
  induction 1 as [gid sid ts st Hrt H
                 |et ar am c sup em eid ts st st' r Hb IH Hrt H
                 |gid sid ts st st' r Hb IH H].
  - apply initialize_empty in H as ->.
    intros e ->%list_elem_of_singleton.
    apply stored_hashed; [done|apply genesis_block_hashed].
  - apply append_inv in H as [(-> & -> & _)|(tip & _ & Hw)]; [done|].
    by eapply hashed_append_write.
  - apply built_reachable, reachable_chain in Hb.
    rewrite (initialize_chain _ _ _ _ Hb) in H. by simplify_eq.
Qed.

(** In a run of racing calls the table is a chain, and every tip held by a
    call that has not committed is a row of it. *)
Lemma race_reachable_chain st pending :
  race_reachable (st, pending) ->
  chain st /\ forall tip, tip ∈ pending -> tip ∈ st.
Proof.
  intros H. remember (st, pending) as s eqn:Es. revert st pending Es.
  induction H as [gid sid ts st0 H|s s' _ IH Hstep]; intros st pending Es.
  - apply initialize_empty in H as ->. simplify_eq. split.
    + apply chain_genesis_block.
    + intros tip Htip. inversion Htip.
  - destruct Hstep as [st1 ps tip Hr
                      |st1 before tip after et ar am c sup em eid ts st' r Hw];
      simplify_eq; destruct (IH _ _ eq_refl) as [Hc Hps].
    + split; [done|]. intros t [->|Ht]%elem_of_cons; [|by apply Hps].
      destruct (append_read_spec st) as [[-> Hr']|(tip' & [Htip _] & Hr')];
        rewrite Hr' in Hr; by simplify_eq.
    + assert (Htip : tip ∈ st1).
      { apply Hps, elem_of_app. right. by left. }
      split; [by eapply chain_append_write|].
      intros t Ht. assert (Ht1 : t ∈ st1).
      { apply Hps, elem_of_app.
        apply elem_of_app in Ht as [Ht|Ht]; [by left|right; by right]. }
      apply append_write_inv in Hw as [(x & -> & -> & _)|(e & -> & -> & _)];
        [done|]. apply elem_of_app. by left.
Qed.

(** The commit of a call whose tip is no longer a tip is refused. *)
Lemma stale_write_refused st tip et ar am c sup em eid ts :
  chain st -> tip ∈ st -> ~ is_tip st tip ->
  exists x, append_write tip et ar am c sup em eid ts st = (st, Raise x).
Proof.
  intros [_ Hi _ _ _] Hin Hstale.
  assert (Htaken : sequence_number tip + 1 ∈ sequence_number <$> st).
  { pose proof Hin as [j Hj]%list_elem_of_lookup.
    pose proof (Hi _ _ Hj) as Hseq.
    destruct (decide (S j < length st)%nat) as [Hlt|Hge].
    - destruct (lookup_lt_is_Some_2 st (S j) Hlt) as [x Hx].
      apply list_elem_of_fmap. exists x. split.
      + rewrite (Hi _ _ Hx). lia.
      + by apply list_elem_of_lookup_2 in Hx.
    - exfalso. apply Hstale. split; [done|].
      intros x [k Hk]%list_elem_of_lookup.
      rewrite (Hi _ _ Hk), Hseq. apply lookup_lt_Some in Hk. lia. }
  rewrite append_write_next.
  destruct (add_commit_taken (next_row tip et ar am c sup em eid ts) st Htaken)
    as [x Hx].
  unfold add_commit in Hx.
  destruct (violation st (next_row tip et ar am c sup em eid ts));
    simplify_eq. by exists x.
Qed.

End Chains.

(** In a chain no two appended rows name the same previous hash. *)
Lemma chain_fork_free st : chain st -> fork_free st.
Proof.
  intros [_ _ _ Hl Hnd] i j a b Ha Hb Hi Hj Hp.
  destruct i as [|i]; [lia|]. destruct j as [|j]; [lia|]. f_equal.
  destruct (lookup_lt_is_Some_2 st i) as [p Hpi].
  { apply lookup_lt_Some in Ha. lia. }
  destruct (lookup_lt_is_Some_2 st j) as [q Hqj].
  { apply lookup_lt_Some in Hb. lia. }
  apply (NoDup_lookup (entry_hash <$> st) i j (entry_hash p)); [done| |].
  - by rewrite list_lookup_fmap, Hpi.
  - rewrite list_lookup_fmap, Hqj. simpl. f_equal.
    rewrite <- (Hl i p a Hpi Ha), <- (Hl j q b Hqj Hb). done.
Qed.

End ChainFacts.

(** ** Verification *)

Module VerifyFacts.
Import Py Json Ledger ListFacts StoreFacts ChainFacts.

(** The first row of the ascending query is a row with the lowest
    sequence number. *)
Lemma select_asc_head st :
  match select_asc st with
  | [] => st = []
  | first :: _ => is_first st first
  end.
Proof.
  unfold select_asc.
  pose proof (merge_sort_Permutation seq_le st) as Hp.
  pose proof (StronglySorted_merge_sort seq_le st) as Hs.
  destruct (merge_sort seq_le st) as [|first rest].
  - by apply Permutation_nil.
  - split.
    + rewrite <- Hp. by left.
    + intros x Hx. rewrite <- Hp in Hx.
      apply StronglySorted_inv in Hs as [_ Hall].
      apply elem_of_cons in Hx as [->|Hx]; [done|].
      rewrite Forall_forall in Hall. by apply Hall.
Qed.

(** Deciding [is_first] and [is_tip] on a table that is written out. *)
Lemma is_first_check st e :
  bool_decide (e ∈ st)
    && forallb (fun x => sequence_number e <=? sequence_number x) st = true ->
  is_first st e.
Proof.
  rewrite andb_true_iff, bool_decide_eq_true, forallb_forall.
  intros [Hin Hall]. split; [done|]. intros x Hx%list_elem_of_In.
  apply Z.leb_le. by apply Hall.
Qed.

Lemma is_tip_check st e :
  bool_decide (e ∈ st)
    && forallb (fun x => sequence_number x <=? sequence_number e) st = true ->
  is_tip st e.
Proof.
  rewrite andb_true_iff, bool_decide_eq_true, forallb_forall.
  intros [Hin Hall]. split; [done|]. intros x Hx%list_elem_of_In.
  apply Z.leb_le. by apply Hall.
Qed.

(** Deciding [hashed] on a table that is written out. *)
Lemma hashed_check st :
  forallb (fun e => bool_decide (entry_hash e = recompute_hash e)) st = true ->
  hashed st.
Proof.
  rewrite forallb_forall. intros Hall e He%list_elem_of_In.
  apply Hall in He. by apply bool_decide_eq_true in He.
Qed.

(** Row [k] of [entries] passes both checks of the loop. *)
Definition passes (entries : store) (k : nat) : Prop :=
  forall e, entries !! k = Some e ->
    entry_hash e = recompute_hash e
    /\ ((0 < k)%nat ->
        Some (previous_hash e) = entry_hash <$> entries !! (k - 1)%nat).

(** The loop runs through rows that pass. *)
Lemma verify_loop_skip entries (n j : nat) :
  (forall k, (j <= k < j + n)%nat -> passes entries k) ->
  (j + n <= length entries)%nat ->
  verify_loop entries j (drop j entries)
  = verify_loop entries (j + n) (drop (j + n) entries).
Proof.
  revert j. induction n as [|n IH]; intros j Hpass Hlen.
  - by rewrite Nat.add_0_r.
  - destruct (lookup_lt_is_Some_2 entries j) as [e He]; [lia|].
    rewrite (drop_S _ _ _ He). cbn [verify_loop].
    destruct (Hpass j ltac:(lia) e He) as [Hh Hl].
    rewrite decide_False by (intros Hne; by apply Hne).
    rewrite decide_False by (intros [Hpos Hne]; by apply Hne, Hl).
    rewrite (IH (S j)).
    + by replace (S j + n)%nat with (j + S n)%nat by lia.
    + intros k Hk. apply Hpass. lia.
    + lia.
Qed.

(** In a chain a row that carries the hash of its fields passes. *)
Lemma chain_passes st k :
  chain st ->
  (forall e, st !! k = Some e -> entry_hash e = recompute_hash e) ->
  passes st k.
Proof.
  intros [_ _ _ Hl _] Hh e He. split.
  - by apply Hh.
  - intros Hk. destruct k as [|k]; [lia|].
    replace (S k - 1)%nat with k by lia.
    destruct (lookup_lt_is_Some_2 st k) as [p Hp].
    { apply lookup_lt_Some in He. lia. }
    rewrite Hp. simpl. f_equal. by apply (Hl k).
Qed.


(** Editing stored fields of row [i] of a chain, its sequence number
    apart, so that its stored hash is no longer the hash of its fields,
    stops verification at row [i] when the rows before it carry the hash
    of their fields. *)
Lemma verify_chain_edited st (i : nat) e e' :
  chain st ->
  (forall (k : nat) x, (k < i)%nat -> st !! k = Some x ->
     entry_hash x = recompute_hash x) ->
  st !! i = Some e ->
  sequence_number e' = sequence_number e ->
  entry_hash e' <> recompute_hash e' ->
  verify_chain (<[i:=e']> st) =
    (false, Z.of_nat i,
     if decide (i = 0%nat /\ previous_hash e' <> GENESIS_HASH)
     then "Genesis block has incorrect previous_hash"
     else "Hash mismatch at sequence " +:+ str_int (sequence_number e')
            +:+ ": stored=" +:+ slice_to 16 (entry_hash e')
            +:+ "... computed=" +:+ slice_to 16 (recompute_hash e') +:+ "...").
Proof.
  intros Hc Hbefore He Hseq Hbad. pose proof Hc as [Hne Hi Hg _ _].
  pose proof (lookup_lt_Some _ _ _ He) as Hlt.
  remember (<[i:=e']> st) as st' eqn:Est'.
  assert (Hother : forall k, k <> i -> st' !! k = st !! k).
  { intros k Hk. subst st'. by apply list_lookup_insert_ne. }
  assert (He' : st' !! i = Some e').
  { subst st'. by apply list_lookup_insert_eq. }
  assert (Hlen : length st' = length st).
  { subst st'. apply length_insert. }
  clear Est'.
  assert (Hi' : indexed st').
  { intros k x Hx. destruct (decide (k = i)) as [->|Hk].
    - assert (x = e') as -> by congruence. rewrite Hseq. by apply Hi.
    - rewrite Hother in Hx by done. by apply Hi. }
  unfold verify_chain. rewrite (indexed_select_asc _ Hi').
  destruct st' as [|first rest] eqn:E; [simpl in Hlen; lia|].
  rewrite <- E in *.
  assert (H0 : st' !! 0%nat = Some first) by by subst.
  clear E rest.
  rewrite decide_False by (rewrite (Hi' _ _ H0); intros Hn; by apply Hn).
  destruct (decide (previous_hash first <> GENESIS_HASH)) as [Hg'|Hg'].
  - destruct (decide (i = 0%nat)) as [->|Hi0].
    + assert (first = e') as -> by congruence.
      by rewrite decide_True by done.
    + exfalso. apply Hg', Hg. rewrite <- H0. symmetry. by apply Hother.
  - rewrite decide_False.
    2:{ intros [-> Hn]. apply Hg'. by assert (first = e') as -> by congruence. }
    pose proof (verify_loop_skip st' i 0) as Hskip.
    rewrite drop_0 in Hskip. rewrite Hskip; cbn [Nat.add].
    + rewrite (drop_S _ _ _ He'). cbn [verify_loop].
      by rewrite decide_True by done.
    + intros k Hk e0 Hk0. rewrite Hother in Hk0 by lia.
      destruct (chain_passes st k Hc) with (e := e0) as [Hh Hl]; [|done|].
      { intros x Hx. apply (Hbefore k); [lia|done]. }
      split; [done|].
      intros Hpos. rewrite Hother by lia. by apply Hl.
    + lia.
Qed.

End VerifyFacts.

(** ** What the loop of [verify_chain] returns *)

Module LoopFacts.
Import Py Json Ledger Accepts ListFacts StoreFacts ChainFacts VerifyFacts.

(** The loop ends normally when every row passes, and else returns at the
    first row that does not. *)
Lemma verify_loop_outcome entries rest (i : nat) :
  match verify_loop entries i rest with
  | None => forall (k : nat) e, rest !! k = Some e -> row_ok entries (i + k) e
  | Some (v, n, m) =>
      v = false
      /\ exists (k : nat) e,
           rest !! k = Some e /\ n = Z.of_nat (i + k)
           /\ (forall (j : nat) e', (j < k)%nat -> rest !! j = Some e' ->
                 row_ok entries (i + j) e')
           /\ ~ row_ok entries (i + k) e
  end.
Proof.
  revert i. induction rest as [|e rest IH]; intros i; cbn [verify_loop].
  { intros k e Hk. by rewrite lookup_nil in Hk. }
  destruct (decide (entry_hash e <> recompute_hash e)) as [Hbad|Hok].
  { split; [done|]. exists 0%nat, e. rewrite Nat.add_0_r.
    split_and!; [done|done|intros; lia|]. by intros [? _]. }
  assert (Hh : entry_hash e = recompute_hash e).
  { by destruct (decide (entry_hash e = recompute_hash e)). }
  destruct (decide ((0 < i)%nat /\
              Some (previous_hash e) <> entry_hash <$> entries !! (i - 1)%nat))
    as [[Hpos Hbreak]|Hlink].
  { split; [done|]. exists 0%nat, e. rewrite Nat.add_0_r.
    split_and!; [done|done|intros; lia|]. intros [_ Hl]. by apply Hbreak, Hl. }
  assert (He : row_ok entries i e).
  { split; [done|]. intros Hpos.
    destruct (decide (Some (previous_hash e)
                      = entry_hash <$> entries !! (i - 1)%nat)); [done|].
    exfalso. by apply Hlink. }
  specialize (IH (S i)).
  destruct (verify_loop entries (S i) rest) as [[[v n] m]|].
  - destruct IH as (-> & k & x & Hx & -> & Hbefore & Hfail).
    split; [done|]. exists (S k), x.
    replace (i + S k)%nat with (S i + k)%nat by lia.
    split_and!; [done|done| |done].
    intros [|j] e' Hj He'.
    + rewrite Nat.add_0_r. by simplify_eq/=.
    + replace (i + S j)%nat with (S i + j)%nat by lia.
      apply Hbefore; [lia|done].
  - intros [|k] x Hx.
    + rewrite Nat.add_0_r. by simplify_eq/=.
    + replace (i + S k)%nat with (S i + k)%nat by lia. by apply IH.
Qed.

Lemma row_ok_passes entries (k : nat) :
  passes entries k <-> forall e, entries !! k = Some e -> row_ok entries k e.
Proof. done. Qed.

Lemma length_select_asc st : length (select_asc st) = length st.
Proof. unfold select_asc. by rewrite merge_sort_Permutation. Qed.

(** A table whose rows, in ascending order, are [verified] verifies. *)
Lemma verify_chain_verified st :
  verified (select_asc st) ->
  verify_chain st =
    (true, Z.of_nat (length st),
     "Chain verified: " +:+ str_int (Z.of_nat (length st))
       +:+ " entries, integrity intact").
Proof.
  intros ((first & rest & Hl & Hs & Hp) & Hh & Hlk).
  unfold verify_chain. rewrite <- (length_select_asc st).
  destruct (select_asc st) as [|first' rest'] eqn:E; [done|].
  rewrite <- E in *. assert (first' = first) as -> by congruence.
  rewrite decide_False by (intros Hn; by apply Hn).
  rewrite decide_False by (intros Hn; by apply Hn).
  pose proof (verify_loop_skip (select_asc st) (length (select_asc st)) 0)
    as Hskip.
  rewrite drop_0 in Hskip. rewrite Hskip; cbn [Nat.add].
  - by rewrite drop_all.
  - intros k _ e He. split.
    + apply Hh. by apply list_elem_of_lookup_2 in He.
    + intros Hk. destruct k as [|k]; [lia|].
      replace (S k - 1)%nat with k by lia.
      destruct (lookup_lt_is_Some_2 (select_asc st) k) as [p Hpk].
      { apply lookup_lt_Some in He. lia. }
      rewrite Hpk. simpl. f_equal. by apply (Hlk k).
  - done.
Qed.

(** What [verify_chain] returns, by the rows in ascending order. *)
Lemma verify_chain_outcome st :
  match verify_chain st with
  | (true, n, m) => verified (select_asc st) /\ n = Z.of_nat (length st)
  | (false, n, m) =>
      exists k : nat,
        n = Z.of_nat k
        /\ (st <> [] -> (k < length st)%nat)
        /\ (forall j : nat, (j < k)%nat -> passes (select_asc st) j)
        /\ (~ passes (select_asc st) k
            \/ (k = 0%nat
                /\ match select_asc st with
                   | [] => True
                   | first :: _ =>
                       sequence_number first <> 0
                       \/ previous_hash first <> GENESIS_HASH
                   end))
  end.
Proof.
  unfold verify_chain. pose proof (length_select_asc st) as Hlen.
  destruct (select_asc st) as [|first rest] eqn:E.
  { exists 0%nat. split_and!; [done| |intros; lia|by right].
    intros Hne. destruct st; [done|discriminate Hlen]. }
  rewrite <- E in *.
  assert (Hpos : (0 < length st)%nat) by (rewrite <- Hlen, E; simpl; lia).
  destruct (decide (sequence_number first <> 0)) as [Hs|Hs].
  { exists 0%nat. rewrite E.
    split_and!; [done|done|intros; lia|right; split; [done|by left]]. }
  destruct (decide (previous_hash first <> GENESIS_HASH)) as [Hp|Hp].
  { exists 0%nat. rewrite E.
    split_and!; [done|done|intros; lia|right; split; [done|by right]]. }
  pose proof (verify_loop_outcome (select_asc st) (select_asc st) 0) as Hloop.
  destruct (verify_loop (select_asc st) 0 (select_asc st)) as [[[v n] m]|].
  - destruct Hloop as (-> & k & e & He & -> & Hbefore & Hfail).
    exists k. split_and!; [done| | |].
    + intros _. rewrite <- Hlen. by apply lookup_lt_Some in He.
    + intros j Hj e' He'. by apply (Hbefore j).
    + left. intros Hpass. apply Hfail. by apply Hpass.
  - split; [|by rewrite Hlen]. split_and!.
    + exists first, rest. split_and!; [done| |].
      * by destruct (decide (sequence_number first = 0)).
      * by destruct (decide (previous_hash first = GENESIS_HASH)).
    + intros e [k Hk]%list_elem_of_lookup. by destruct (Hloop k e Hk).
    + intros k p e Hpk Hek. destruct (Hloop (S k) e Hek) as [_ Hl].
      specialize (Hl ltac:(simpl; lia)).
      replace (0 + S k - 1)%nat with k in Hl by lia.
      rewrite Hpk in Hl. by simplify_eq/=.
Qed.

(** A chain that verifies has every row carry the hash of its fields. *)
Lemma verified_hashed st :
  chain st -> (verify_chain st).1.1 = true -> hashed st.
Proof.
  intros [_ Hi _ _ _] Hv. pose proof (verify_chain_outcome st) as H.
  destruct (verify_chain st) as [[[] n] m]; [|done].
  destruct H as [(_ & Hh & _) _]. by rewrite (indexed_select_asc _ Hi) in Hh.
Qed.

End LoopFacts.

(** ** Commits *)

Module CommitFacts.
Import Py Json Ledger Accepts ListFacts StoreFacts ChainFacts.

Section Commits.
Context {DB : Storage}.

(** The commit accepts exactly the rows that the storage holds and that
    break no column type and no constraint. *)
Lemma violation_None st e : violation st e = None <-> acceptable st e.
Proof.
  unfold violation, acceptable.
  destruct (unstorable e) as [r|] eqn:Hu.
  { split; [done|]. by intros [? _]. }
  repeat case_match;
    (split; [intros Hv; try discriminate Hv|intros (_&?&?&?&?&?&?&?&?&Hfk)]);
    repeat match goal with
      | H : negb _ = true |- _ => apply negb_true_iff in H
      | H : negb _ = false |- _ => apply negb_false_iff in H
      | H : _ && _ = true |- _ => apply andb_true_iff in H as [? ?]
      | H : _ && _ = false |- _ => apply andb_false_iff in H
      | H : (_ <=? _)%nat = true |- _ => apply Nat.leb_le in H
      | H : (_ <=? _)%nat = false |- _ => apply Nat.leb_gt in H
      | H : (_ <=? _) = true |- _ => apply Z.leb_le in H
      | H : (_ <=? _) = false |- _ => apply Z.leb_gt in H
      | H : bool_decide _ = true |- _ => apply bool_decide_eq_true in H
      | H : bool_decide _ = false |- _ => apply bool_decide_eq_false in H
      end;
    try (exfalso; first [lia | tauto | done]).
  all: try (split_and!; try done; try lia; intros u' Hu'; by simplify_eq).
  all: try reflexivity.
  exfalso. match goal with H : _ ∉ _ |- _ => apply H; by apply Hfk end.
Qed.

(** The row that [append] returns: the row it built after [last_entry],
    as the storage returns it. *)
Lemma append_write_row last_entry et ar am c sup em eid ts st st' e :
  append_write last_entry et ar am c sup em eid ts st = (st', Ok e) ->
  st' = st ++ [e]
  /\ e = stored (next_row last_entry et ar am c sup em eid ts)
  /\ acceptable st (next_row last_entry et ar am c sup em eid ts)
  /\ id e = eid /\ entry_type e = et /\ author_role e = ar
  /\ author_member_id e = am /\ content e = jsonb c /\ supersedes e = sup
  /\ emergency_designation e = em /\ timestamp e = timestamptz ts.
Proof.
  rewrite append_write_next. intros H.
  destruct (violation st (next_row last_entry et ar am c sup em eid ts))
    as [x|] eqn:Hv; simplify_eq.
  apply violation_None in Hv. by split_and!.
Qed.

(** A row that is not acceptable is not written. *)
Lemma append_write_refused last_entry et ar am c sup em eid ts st :
  (forall e, id e = eid -> supersedes e = sup -> ~ acceptable st e) ->
  exists x,
    append_write last_entry et ar am c sup em eid ts st = (st, Raise x).
Proof.
  intros Hno. rewrite append_write_next.
  destruct (violation st (next_row last_entry et ar am c sup em eid ts))
    as [x|] eqn:Hv; [by exists x|].
  apply violation_None in Hv. by apply Hno in Hv.
Qed.

(** No two rows of a table that is reached have one id. *)
Lemma reachable_ids st : reachable st -> NoDup (id <$> st).
Proof.
  induction 1 as [gid sid ts st H
                 |et ar am c sup em eid ts st st' r _ IH H
                 |gid sid ts st st' r Hr IH H].
  - apply initialize_empty in H as ->. apply NoDup_singleton.
  - apply append_inv in H as [(-> & -> & _)|(tip & _ & Hw)]; [done|].
    apply append_write_inv in Hw
      as [(x & -> & -> & _)|(e & -> & -> & _ & _ & _ & _ & _ & _ & Hid)];
      [done|].
    rewrite fmap_app. apply NoDup_app. split_and!; [done| |apply NoDup_singleton].
    intros i Hin Hin'. apply list_elem_of_singleton in Hin' as ->. done.
  - apply reachable_chain in Hr.
    rewrite (initialize_chain _ _ _ _ Hr) in H. by simplify_eq.
Qed.

(** The stored hash of every row of a table that is reached fits its
    column: it is a digest. *)
Lemma reachable_hash_length st :
  reachable st ->
  forall e, e ∈ st -> (char_length (entry_hash e) <= 64)%nat.
Proof.
  induction 1 as [gid sid ts st H
                 |et ar am c sup em eid ts st st' r _ IH H
                 |gid sid ts st st' r Hr IH H].
  - apply initialize_empty in H as ->.
    intros e ->%list_elem_of_singleton. apply char_length_hash.
  - apply append_inv in H as [(-> & -> & _)|(tip & _ & Hw)]; [done|].
    apply append_write_inv in Hw
      as [(x & -> & -> & _)|(e & -> & -> & -> & _)]; [done|].
    intros x [Hx|Hx]%elem_of_app; [by apply IH|].
    apply list_elem_of_singleton in Hx as ->. apply char_length_hash.
  - apply reachable_chain in Hr.
    rewrite (initialize_chain _ _ _ _ Hr) in H. by simplify_eq.
Qed.

End Commits.

End CommitFacts.

(** ** Reads *)

Module ReadFacts.
Import Py Json Ledger Reads Accepts Sample.
Import ListFacts StoreFacts ChainFacts VerifyFacts CommitFacts.


(** Rows of a table numbered by position, kept in the order of the table,
    are read newest first as their reverse. *)
Lemma select_desc_reverse (st l : store) :
  indexed st -> (forall x, x ∈ l -> x ∈ st) -> Sorted seq_le l ->
  select_desc l = reverse l.
Proof.
  intros Hi Hsub Hs. unfold select_desc.
  apply (Sorted_unique_strong seq_ge).
  - intros x y Hx Hy Hxy Hyx. rewrite merge_sort_Permutation in Hx.
    rewrite reverse_Permutation in Hy.
    apply (indexed_elem st); auto. unfold seq_ge in *. lia.
  - apply Sorted_merge_sort, _.
  - exact (Sorted_reverse seq_le l Hs).
  - by rewrite merge_sort_Permutation, reverse_Permutation.
Qed.


Lemma select_desc_indexed st : indexed st -> select_desc st = reverse st.
Proof.
  intros Hi. apply (select_desc_reverse st); [done|done|].
  by apply (sorted_from 0).
Qed.

Lemma get_by_sequence_elem st x :
  NoDup (sequence_number <$> st) -> x ∈ st ->
  get_by_sequence (sequence_number x) st = Ok (Some x).
Proof.
  intros Hnd Hx. unfold get_by_sequence.
  by rewrite (filter_key sequence_number st x Hnd Hx).
Qed.

Lemma get_entry_elem st x :
  NoDup (id <$> st) -> x ∈ st -> get_entry (id x) st = Ok (Some x).
Proof.
  intros Hnd Hx. unfold get_entry. by rewrite (filter_key id st x Hnd Hx).
Qed.

End ReadFacts.

(** ** The format of the digest *)

Module FormatFacts.
Import Py Json Ledger Accepts Sha256 Sha256Facts.

Lemma ascii_of_app a b :
  list_ascii_of_string (a +:+ b)
  = list_ascii_of_string a ++ list_ascii_of_string b.
Proof. induction a as [|c a IH]; [done|]. simpl. by rewrite IH. Qed.

Lemma lower_hex_app a b : lower_hex (a +:+ b) = lower_hex a && lower_hex b.
Proof. unfold lower_hex. by rewrite ascii_of_app, forallb_app. Qed.

Lemma lower_hex_digit v :
  lower_hex (String (hex_digit (Z.land v 0xf)) EmptyString) = true.
Proof.
  change 0xf with (Z.ones 4). rewrite Z.land_ones by done.
  pose proof (Z.mod_pos_bound v (2 ^ 4) ltac:(done)) as Hd.
  set (d := v mod 2 ^ 4) in *. clearbody d.
  assert (Hcases : d = 0 \/ d = 1 \/ d = 2 \/ d = 3 \/ d = 4 \/ d = 5
                   \/ d = 6 \/ d = 7 \/ d = 8 \/ d = 9 \/ d = 10 \/ d = 11
                   \/ d = 12 \/ d = 13 \/ d = 14 \/ d = 15) by lia.
  repeat (destruct Hcases as [->|Hcases]; [reflexivity|]).
  by subst.
Qed.

Lemma lower_hex_hex_of n v : lower_hex (hex_of n v) = true.
Proof.
  revert v. induction n as [|n IH]; intros v; [done|].
  cbn [hex_of]. by rewrite lower_hex_app, IH, lower_hex_digit.
Qed.

Lemma lower_hex_hexdigest msg : lower_hex (hexdigest msg) = true.
Proof.
  unfold hexdigest. induction (digest msg) as [|w l IH]; [done|].
  cbn [foldr]. by rewrite lower_hex_app, lower_hex_hex_of, IH.
Qed.

End FormatFacts.

(** * The claims of the specification *)

Module Spec.
Import Py Json Ledger Audit Accepts Sample.
Import ListFacts StoreFacts ChainFacts VerifyFacts LoopFacts CommitFacts.

Section Claims.
Context {DB : Storage}.

(** C1 (as amended). Tamper detection: on a table built by [initialize]
    and [append] whose rows before row [i] carry the hash of their fields
    (as they all do when [verify_chain] returned [True] before the edit,
    and when the storage returns contents and timestamps as they were
    hashed), an edit of stored fields of row [i] that keeps its sequence
    number and leaves its stored hash different from the hash of its
    fields makes [verify_chain] return [False] and [i].  The message is
    "Hash mismatch at sequence n: ..." with the sequence number and the
    two truncated hashes, except that an edit of the genesis row's
    [previous_hash] is reported as "Genesis block has incorrect
    previous_hash". *)
Theorem tamper_detected st (i : nat) e e' :
  reachable st ->
  (forall (k : nat) x, (k < i)%nat -> st !! k = Some x ->
     entry_hash x = recompute_hash x) ->
  st !! i = Some e ->
  sequence_number e' = sequence_number e ->
  entry_hash e' <> recompute_hash e' ->
  verify_chain (<[i:=e']> st) =
    (false, Z.of_nat i,
     if decide (i = 0%nat /\ previous_hash e' <> GENESIS_HASH)
     then "Genesis block has incorrect previous_hash"
     else "Hash mismatch at sequence " +:+ str_int (sequence_number e')
            +:+ ": stored=" +:+ slice_to 16 (entry_hash e')
            +:+ "... computed=" +:+ slice_to 16 (recompute_hash e') +:+ "...").
Proof. intros Hc%reachable_chain Hb. by apply verify_chain_edited. Qed.

(** The condition of C1 on the rows before row [i] holds on a table on
    which [verify_chain] returned [True], and on a table built from
    contents and timestamps that round-trip. *)
Lemma verified_rows_hashed st :
  reachable st -> (verify_chain st).1.1 = true -> hashed st.
Proof. intros Hc%reachable_chain. by apply verified_hashed. Qed.

Lemma built_rows_hashed st : built st -> hashed st.
Proof. apply built_hashed. Qed.

(** C4. Hash determinism and key-order independence: [_compute_hash] is a
    function of the ten fields, and two contents that differ only in the
    insertion order of the items of their [dict]s, at any depth, give the
    same digest.  ([wf]: a [dict] has no key twice.) *)
Theorem compute_hash_key_order eid seq prev ts et ar am c c' sup em :
  wf c = true -> reorder c c' ->
  _compute_hash eid seq prev ts et ar am c sup em
  = _compute_hash eid seq prev ts et ar am c' sup em.
Proof.
  intros Hwf Hr. destruct (JsonFacts.dumps_reorder c c' Hr Hwf) as [_ E].
  unfold _compute_hash. cbn [dumps fmap list_fmap fst snd]. by rewrite E.
Qed.

(** C5. Chain linkage: in every table reached by [initialize] and calls
    of [append], the sequence numbers are 0, 1, ..., N-1 in the order the
    rows were written, no two rows share one, and a row whose sequence
    number is one more than another's names that row's hash as its
    previous hash. *)
Theorem chain_linkage st :
  reachable st ->
  sequence_number <$> st = Z.of_nat <$> seq 0 (length st)
  /\ NoDup (sequence_number <$> st)
  /\ forall p e,
       p ∈ st -> e ∈ st ->
       sequence_number e = sequence_number p + 1 ->
       previous_hash e = entry_hash p.
Proof.
  intros [_ Hi _ Hl _]%reachable_chain. split_and!.
  - by apply indexed_seqs.
  - by apply indexed_NoDup.
  - intros p e [i Hp]%list_elem_of_lookup [j He]%list_elem_of_lookup Hs.
    pose proof (Hi _ _ Hp). pose proof (Hi _ _ He).
    assert (j = S i) as -> by lia. by apply (Hl i).
Qed.

(** C6. Fail-fast preconditions of [verify_chain]: it returns [False] and
    0 on an empty table, when the first row in ascending sequence order
    has a sequence number other than 0, and when that row has sequence
    number 0 and a [previous_hash] other than the 64 zeros.  (The table
    has no two rows with one sequence number: the column is unique.) *)
Theorem verify_chain_fail_fast st :
  NoDup (sequence_number <$> st) ->
  (st = [] -> verify_chain st = (false, 0, "No entries found in ledger"))
  /\ forall first,
       is_first st first ->
       (sequence_number first <> 0 ->
        verify_chain st =
          (false, 0,
           "First entry has sequence " +:+ str_int (sequence_number first)
             +:+ ", expected 0"))
       /\ (sequence_number first = 0 ->
           previous_hash first <> GENESIS_HASH ->
           verify_chain st =
             (false, 0, "Genesis block has incorrect previous_hash")).
Proof.
  intros Hnd. split; [by intros ->|].
  intros first [Hin Hmin].
  pose proof (select_asc_head st) as Hh. unfold verify_chain.
  destruct (select_asc st) as [|h rest].
  { subst. inversion Hin. }
  destruct Hh as [Hhin Hhmin].
  assert (h = first) as ->.
  { apply (same_key_same_item sequence_number st); try done.
    pose proof (Hmin _ Hhin). pose proof (Hhmin _ Hin). lia. }
  split.
  - intros Hs. by rewrite decide_True.
  - intros Hs Hp. rewrite decide_False by (intros Hn; by apply Hn).
    by rewrite decide_True.
Qed.

(** C10. On an empty table [run_audit] returns [True] after the one call
    [get_entry_count], [main] exits with 0, and [verify_chain] on the same
    table returns [False], 0 and "No entries found in ledger". *)
Theorem audit_empty_ledger verbose :
  run_audit [] verbose = (true, [GetEntryCount])
  /\ main [] verbose = 0
  /\ verify_chain [] = (false, 0, "No entries found in ledger").
Proof. by split_and!. Qed.

(** C8. [initialize] is idempotent: a call that returns wrote nothing if a
    row with sequence number 0 was stored, and else added the genesis row,
    which has sequence number 0, the 64 zeros as previous hash and the
    fixed content, and is stored as the storage returns it; any further
    call writes nothing and returns; the table then holds exactly one row
    with sequence number 0, and so does every table reached by
    [initialize] and [append]. *)
Theorem initialize_idempotent gid sid ts st st1 :
  initialize gid sid ts st = (st1, Ok tt) ->
  (Exists (fun e => sequence_number e = 0) st -> st1 = st)
  /\ (~ Exists (fun e => sequence_number e = 0) st ->
      st1 = st ++ [stored (_create_genesis_block gid sid ts)])
  /\ sequence_number (_create_genesis_block gid sid ts) = 0
  /\ previous_hash (_create_genesis_block gid sid ts) = GENESIS_HASH
  /\ content (_create_genesis_block gid sid ts) = genesis_content
  /\ sequence_number (stored (_create_genesis_block gid sid ts)) = 0
  /\ previous_hash (stored (_create_genesis_block gid sid ts)) = GENESIS_HASH
  /\ content (stored (_create_genesis_block gid sid ts)) = jsonb genesis_content
  /\ (forall gid' sid' ts', initialize gid' sid' ts' st1 = (st1, Ok tt))
  /\ length (filter (fun e => sequence_number e = 0) st1) = 1%nat
  /\ (reachable st ->
      st1 = st /\ length (filter (fun e => sequence_number e = 0) st) = 1%nat).
Proof.
  intros H.
  assert (Hone : exists g, filter (fun e => sequence_number e = 0) st1 = [g]
            /\ (Exists (fun e => sequence_number e = 0) st -> st1 = st)
            /\ (~ Exists (fun e => sequence_number e = 0) st ->
                st1 = st ++ [stored (_create_genesis_block gid sid ts)])).
  { rewrite initialize_unfold in H.
    destruct (filter (fun e => sequence_number e = 0) st) as [|x [|y l]] eqn:Hf;
      [| |done].
    - apply add_commit_ok in H as (-> & _).
      exists (stored (_create_genesis_block gid sid ts)).
      split_and!; [|intros H|done].
      + rewrite filter_app, Hf. by rewrite filter_cons_True by reflexivity.
      + apply Exists_exists in H as (x & Hx & Hp).
        assert (Hin : x ∈ filter (fun e => sequence_number e = 0) st)
          by by apply list_elem_of_filter.
        rewrite Hf in Hin. inversion Hin.
    - simplify_eq. exists x. split_and!; [done|done|].
      intros Hn. exfalso. apply Hn, Exists_exists. exists x.
      assert (Hin : x ∈ filter (fun e => sequence_number e = 0) st1)
        by (rewrite Hf; by left).
      apply list_elem_of_filter in Hin as [? ?]. done. }
  destruct Hone as (g & Hg & Hsome & Hnone).
  split_and!; try done.
  - intros gid' sid' ts'. by rewrite initialize_unfold, Hg.
  - by rewrite Hg.
  - intros Hc%reachable_chain.
    rewrite (initialize_chain _ _ _ _ Hc) in H. simplify_eq. split; [done|].
    by destruct (chain_one_genesis _ Hc) as (g' & _ & ->).
Qed.

(** C9 (as amended). Calls of [append] that run at once are not
    serialized and none retries; the unique constraint on
    [sequence_number] decides the race.  In every state of such a run no
    two rows have one sequence number, no two appended rows name the same
    previous hash, and the commit of a call whose tip is no longer a tip
    raises and leaves the table as it was. *)
Theorem append_race_rejected st pending :
  race_reachable (st, pending) ->
  NoDup (sequence_number <$> st)
  /\ fork_free st
  /\ forall tip,
       tip ∈ pending -> ~ is_tip st tip ->
       forall et ar am c sup em eid ts,
       exists x, append_write tip et ar am c sup em eid ts st = (st, Raise x).
Proof.
  intros [Hc Hps]%race_reachable_chain. split_and!.
  - apply indexed_NoDup, Hc.
  - by apply chain_fork_free.
  - intros tip Hin Hstale et ar am c sup em eid ts.
    apply stale_write_refused; auto.
Qed.

End Claims.

(** ** The claims on the sample ledger: PostgreSQL, sessions in UTC *)

#[local] Existing Instance utc.

Example genesis_row_hash :
  entry_hash genesis_row
  = "2f67c7af9c5984b6b08353bee7a2f2d598a77059faae1f8effa0e3cc0fc62a6b".
Proof. vm_compute. reflexivity. Qed.

(** The sample ledger is what the three calls build. *)
Lemma sample_initialize : initialize 1 2 noon [] = (ledger0, Ok tt).
Proof. vm_compute. reflexivity. Qed.

Lemma sample_append_alpha :
  append "executive_action" "operations_executive" 7
    (JDict [("action", JStr "alpha")]) None false 3 noon ledger0
  = (ledger1, Ok alpha_row).
Proof. vm_compute. reflexivity. Qed.

Lemma sample_append_beta :
  append "executive_action" "operations_executive" 7
    (JDict [("action", JStr "beta")]) None false 4 noon ledger1
  = (ledger2, Ok beta_row).
Proof. vm_compute. reflexivity. Qed.

Lemma sample_reachable : reachable ledger2.
Proof.
  eapply reach_append; [|apply sample_append_beta].
  eapply reach_append; [|apply sample_append_alpha].
  eapply reach_genesis, sample_initialize.
Qed.



Lemma sample_hashed : hashed ledger2.
Proof. apply hashed_check. vm_compute. reflexivity. Qed.

Lemma tamper_detected_witness :
  reachable ledger2
  /\ (forall (k : nat) x, (k < 1)%nat -> ledger2 !! k = Some x ->
        entry_hash x = recompute_hash x)
  /\ ledger2 !! 1%nat = Some alpha_row
  /\ sequence_number omega_row = sequence_number alpha_row
  /\ entry_hash omega_row <> recompute_hash omega_row
  /\ verify_chain (<[1%nat := omega_row]> ledger2)
     = (false, 1,
        "Hash mismatch at sequence 1: stored=3c099473470c0bb4... computed=48d0a91d902e0efc...").
Proof.
  assert (Hbefore : forall (k : nat) x, (k < 1)%nat -> ledger2 !! k = Some x ->
            entry_hash x = recompute_hash x).
  { intros k x Hk Hx. apply sample_hashed. by apply list_elem_of_lookup_2 in Hx. }
  assert (Hbad : entry_hash omega_row <> recompute_hash omega_row).
  { vm_compute. discriminate. }
  split; [apply sample_reachable|]. split; [exact Hbefore|].
  split; [reflexivity|]. split; [reflexivity|]. split; [exact Hbad|].
  rewrite (tamper_detected ledger2 1 alpha_row omega_row
             sample_reachable Hbefore eq_refl eq_refl Hbad).
  vm_compute. reflexivity.
Defined.

(** An edit of the stored hash alone, on a row that carried the hash of
    its fields, leaves the stored hash different from the hash of the
    fields, which is still the old one. *)
Lemma edit_of_entry_hash_visible e h :
  entry_hash e = recompute_hash e -> h <> entry_hash e ->
  sequence_number (set_entry_hash h e) = sequence_number e
  /\ entry_hash (set_entry_hash h e) <> recompute_hash (set_entry_hash h e).
Proof.
  intros He Hne. split; [done|].
  change (recompute_hash (set_entry_hash h e)) with (recompute_hash e).
  change (entry_hash (set_entry_hash h e)) with h. congruence.
Qed.

(** C1, the claim as stated, fails on two edits of the sample ledger.
    Setting the genesis row's [previous_hash] to 64 ones is reported as
    "Genesis block has incorrect previous_hash", which names no sequence
    number.  Setting the sequence number of the row after the genesis row
    to 5 moves that row behind the last one; verification then stops at
    index 1 on the untouched row 2, with a message that names sequence 2,
    not 5 and not 1. *)
Lemma tamper_detected_counterexample :
  reachable ledger2
  /\ ledger2 !! 0%nat = Some genesis_row
  /\ verify_chain (<[0%nat := set_previous_hash ones genesis_row]> ledger2)
     = (false, 0, "Genesis block has incorrect previous_hash")
  /\ names_sequence "Genesis block has incorrect previous_hash"
       (sequence_number (set_previous_hash ones genesis_row)) = false
  /\ ledger2 !! 1%nat = Some alpha_row
  /\ verify_chain (<[1%nat := set_sequence_number 5 alpha_row]> ledger2)
     = (false, 1,
        "Chain break at sequence 2: previous_hash does not match prior entry's hash")
  /\ names_sequence
       "Chain break at sequence 2: previous_hash does not match prior entry's hash"
       (sequence_number (set_sequence_number 5 alpha_row)) = false
  /\ names_sequence
       "Chain break at sequence 2: previous_hash does not match prior entry's hash"
       (sequence_number alpha_row) = false.
Proof.
  split; [apply sample_reachable|].
  split_and!; vm_compute; reflexivity.
Qed.

(** C2 (code bug). Verification soundness fails on ledgers that nothing
    but the service has written.  [append] and [initialize] hash the
    content and the timestamp as they hold them; [verify_chain] hashes
    what the table returns.  After [initialize] and one [append] of the
    content [{"amount": 1e16}], the [JSONB] column returns the integer
    10000000000000000 for the [float], which serialises as that integer
    and no longer as [1e+16]: [verify_chain] returns [False] and 1.  In a
    database whose sessions run one hour east of UTC the genesis row
    comes back at 13:00+01:00, and [verify_chain] returns [False] and 0
    right after [initialize]. *)
Theorem untouched_ledger_fails_verification :
  initialize 1 2 noon [] = (ledger0, Ok tt)
  /\ append "executive_action" "operations_executive" 7 float_content
       None false 3 noon ledger0
     = (ledger_float, Ok float_row)
  /\ verify_chain ledger_float
     = (false, 1,
        "Hash mismatch at sequence 1: stored=d4783aa30ddeed8e... computed=8b9f5d1d5e930036...")
  /\ initialize (DB:=cet) 1 2 noon [] = (ledger_cet, Ok tt)
  /\ verify_chain ledger_cet
     = (false, 0,
        "Hash mismatch at sequence 0: stored=2f67c7af9c5984b6... computed=e4ea2b27e6cac419...").
Proof. split_and!; vm_compute; reflexivity. Qed.

(** C3 (code bug). The append postcondition fails on the [append] of the
    content [{"amount": 1e16}] to the sample ledger: the row that [append]
    returns was read again from the table, its content holds the integer
    10000000000000000, and the digest recomputed from its own stored
    fields is not the [entry_hash] it carries.  Its sequence number and
    its previous hash are the ones the claim gives. *)
Theorem appended_hash_not_reproducible :
  append "executive_action" "operations_executive" 7 float_content
    None false 3 noon ledger0
  = (ledger_float, Ok float_row)
  /\ is_tip ledger0 genesis_row
  /\ sequence_number float_row = sequence_number genesis_row + 1
  /\ previous_hash float_row = entry_hash genesis_row
  /\ content float_row = JDict [("amount", JInt 10000000000000000)]
  /\ entry_hash float_row
     <> _compute_hash (id float_row) (sequence_number float_row)
          (previous_hash float_row) (timestamp float_row)
          (entry_type float_row) (author_role float_row)
          (author_member_id float_row) (content float_row)
          (supersedes float_row) (emergency_designation float_row).
Proof.
  split_and!.
  - vm_compute. reflexivity.
  - apply is_tip_check. vm_compute. reflexivity.
  - reflexivity.
  - vm_compute. reflexivity.
  - reflexivity.
  - vm_compute. discriminate.
Qed.

(** C7 (code bug). In the state the claim names, a database in which
    [initialize] never ran, the store holds no entries and [append] does
    not raise the no-genesis-block error: there is no table, the [SELECT]
    of the tip comes before the test for the genesis row, and the call
    raises [ProgrammingError].  Nothing is written.  On the empty table
    the error is the one of the claim, and after [initialize] the call
    returns. *)
Theorem append_before_initialize :
  LedgerService.append "executive_action" "operations_executive" 7
    (JDict [("action", JStr "alpha")]) None false 3 noon None
  = (None, Raise (ProgrammingError "ledger_entries"))
  /\ LedgerService.append "executive_action" "operations_executive" 7
       (JDict [("action", JStr "alpha")]) None false 3 noon (Some [])
     = (Some [],
        Raise (LedgerIntegrityError
          "Cannot append: no genesis block found. Call initialize() first."))
  /\ LedgerService.initialize 1 2 noon None = (Some ledger0, Ok tt)
  /\ LedgerService.append "executive_action" "operations_executive" 7
       (JDict [("action", JStr "alpha")]) None false 3 noon (Some ledger0)
     = (Some ledger1, Ok alpha_row).
Proof. split_and!; vm_compute; reflexivity. Qed.

Lemma compute_hash_key_order_witness :
  wf nested = true
  /\ reorder nested nested_reordered
  /\ _compute_hash 3 1 GENESIS_HASH noon "executive_action" "operations_executive" 7
       nested None false
     = _compute_hash 3 1 GENESIS_HASH noon "executive_action" "operations_executive" 7
       nested_reordered None false.
Proof.
  assert (Hr : reorder nested nested_reordered).
  { eapply reorder_trans.
    - apply (reorder_in_dict [("a", JInt 1)] "b" _
               (JDict [("y", JBool true); ("x", JNull)]) []).
      apply reorder_items, perm_swap.
    - apply reorder_items, perm_swap. }
  split; [reflexivity|]. split; [exact Hr|].
  exact (compute_hash_key_order 3 1 GENESIS_HASH noon "executive_action"
           "operations_executive" 7 nested nested_reordered None false
           eq_refl Hr).
Defined.

Lemma chain_linkage_witness :
  reachable ledger2
  /\ sequence_number <$> ledger2 = [0; 1; 2]
  /\ NoDup (sequence_number <$> ledger2)
  /\ forall p e,
       p ∈ ledger2 -> e ∈ ledger2 ->
       sequence_number e = sequence_number p + 1 ->
       previous_hash e = entry_hash p.
Proof.
  split; [apply sample_reachable|].
  exact (chain_linkage ledger2 sample_reachable).
Defined.

Lemma verify_chain_fail_fast_witness :
  NoDup (sequence_number <$> ledger2_edited)
  /\ is_first ledger2_edited (set_previous_hash ones genesis_row)
  /\ sequence_number (set_previous_hash ones genesis_row) = 0
  /\ previous_hash (set_previous_hash ones genesis_row) <> GENESIS_HASH
  /\ verify_chain ledger2_edited
     = (false, 0, "Genesis block has incorrect previous_hash").
Proof.
  assert (Hnd : NoDup (sequence_number <$> ledger2_edited)).
  { apply (bool_decide_unpack _). vm_compute. exact I. }
  assert (Hf : is_first ledger2_edited (set_previous_hash ones genesis_row)).
  { apply is_first_check. vm_compute. reflexivity. }
  assert (Hp : previous_hash (set_previous_hash ones genesis_row) <> GENESIS_HASH).
  { vm_compute. discriminate. }
  split_and!; [exact Hnd|exact Hf|reflexivity|exact Hp|].
  destruct (verify_chain_fail_fast ledger2_edited Hnd) as [_ H].
  destruct (H _ Hf) as [_ H']. exact (H' eq_refl Hp).
Defined.

Lemma initialize_idempotent_witness :
  initialize 1 2 noon [] = (ledger0, Ok tt)
  /\ (~ Exists (fun e => sequence_number e = 0) [] ->
      ledger0 = [] ++ [stored (_create_genesis_block 1 2 noon)])
  /\ (forall gid' sid' ts', initialize gid' sid' ts' ledger0 = (ledger0, Ok tt))
  /\ length (filter (fun e => sequence_number e = 0) ledger0) = 1%nat.
Proof.
  split; [apply sample_initialize|].
  destruct (initialize_idempotent 1 2 noon [] ledger0 sample_initialize)
    as (_ & H1 & _ & _ & _ & _ & _ & _ & H2 & H3 & _).
  split_and!; [exact H1|exact H2|exact H3].
Defined.

(** C9, the claim as stated, fails on a race of two calls on the sample
    ledger.  Both read the genesis row as tip; the first commits row 1;
    the commit of the second is refused by the unique constraint on
    [sequence_number], and the call raises that error: nothing reads the
    tip again, though an [append] started now would return row 2. *)
Lemma append_race_counterexample :
  append_read ledger0 = (ledger0, Ok genesis_row)
  /\ append_write genesis_row "executive_action" "operations_executive" 7
       (JDict [("action", JStr "alpha")]) None false 3 noon ledger0
     = (ledger1, Ok alpha_row)
  /\ append_write genesis_row "executive_action" "operations_executive" 7
       (JDict [("action", JStr "beta")]) None false 4 noon ledger1
     = (ledger1, Raise (IntegrityError "sequence_number"))
  /\ append "executive_action" "operations_executive" 7
       (JDict [("action", JStr "beta")]) None false 4 noon ledger1
     = (ledger2, Ok beta_row).
Proof. split_and!; vm_compute; reflexivity. Qed.

Lemma sample_race : race_reachable (ledger1, [genesis_row]).
Proof.
  assert (Hr : append_read ledger0 = (ledger0, Ok genesis_row))
    by (vm_compute; reflexivity).
  assert (Hw : append_write genesis_row "executive_action"
                 "operations_executive" 7 (JDict [("action", JStr "alpha")])
                 None false 3 noon ledger0 = (ledger1, Ok alpha_row))
    by (vm_compute; reflexivity).
  eapply race_next.
  - eapply race_next; [eapply race_next|].
    + eapply race_start, sample_initialize.
    + apply (race_read ledger0 [] genesis_row Hr).
    + apply (race_read ledger0 [genesis_row] genesis_row Hr).
  - exact (race_write ledger0 [] genesis_row [genesis_row] _ _ _ _ _ _ _ _ _ _ Hw).
Qed.

Lemma append_race_rejected_witness :
  race_reachable (ledger1, [genesis_row])
  /\ NoDup (sequence_number <$> ledger1)
  /\ fork_free ledger1
  /\ forall tip,
       tip ∈ [genesis_row] -> ~ is_tip ledger1 tip ->
       forall et ar am c sup em eid ts,
       exists x,
         append_write tip et ar am c sup em eid ts ledger1 = (ledger1, Raise x).
Proof.
  split; [apply sample_race|].
  exact (append_race_rejected ledger1 [genesis_row] sample_race).
Defined.

End Spec.

(** * Further properties: the statements *)

Module Extra.
Import Py Json Ledger Audit Reads Listing Callers Accepts Sample.
Import ListFacts StoreFacts ChainFacts VerifyFacts CommitFacts ReadFacts.
Import LoopFacts Edits FormatFacts.

Section Properties.
Context {DB : Storage}.

(** X1. On a table built by [initialize] and [append],
    [get_by_sequence(n)] returns the row at position [n] of the table for
    [0 <= n < N] and [None] for every other [n]; it never raises. *)
Theorem get_by_sequence_reachable st n :
  reachable st ->
  get_by_sequence n st
  = Ok (if decide (0 <= n) then st !! Z.to_nat n else None).
Proof.
  intros Hc%reachable_chain. pose proof Hc as [_ Hi _ _ _].
  pose proof (indexed_NoDup _ Hi) as Hnd.
  assert (Hnone : (forall x, x ∈ st -> sequence_number x <> n) ->
                  get_by_sequence n st = Ok None).
  { intros Hno. unfold get_by_sequence. rewrite filter_no_key; [done|].
    intros (x & -> & Hx)%list_elem_of_fmap. by apply (Hno x). }
  destruct (decide (0 <= n)) as [Hn|Hn].
  - destruct (st !! Z.to_nat n) as [x|] eqn:Hx.
    + pose proof (Hi _ _ Hx) as Hs. rewrite Z2Nat.id in Hs by done.
      rewrite <- Hs. apply get_by_sequence_elem; [done|].
      by apply list_elem_of_lookup_2 in Hx.
    + apply Hnone. intros x [i Hix]%list_elem_of_lookup Hs.
      rewrite (Hi _ _ Hix) in Hs. subst n. rewrite Nat2Z.id in Hx. congruence.
  - apply Hnone. intros x [i Hix]%list_elem_of_lookup Hs.
    rewrite (Hi _ _ Hix) in Hs. lia.
Qed.

(** X2. On a table built by [initialize] and [append], [get_entry(id)]
    returns the stored row with that id, and [None] when no row has it;
    no two rows share an id, so it never raises. *)
Theorem get_entry_reachable st :
  reachable st ->
  (forall e, e ∈ st -> get_entry (id e) st = Ok (Some e))
  /\ (forall i, i ∉ (id <$> st) -> get_entry i st = Ok None).
Proof.
  intros Hr. pose proof (reachable_ids _ Hr) as Hnd. split.
  - intros e He. by apply get_entry_elem.
  - intros i Hi. unfold get_entry. by rewrite filter_no_key.
Qed.

(** X3. What [append] returns can be read back: after a call that
    returned row [e], [get_entry] with the new id and [get_by_sequence]
    with the new sequence number both return [e], and every row stored
    before is still returned, unchanged, under its id and its sequence
    number. *)
Theorem append_then_read et ar am c sup em eid ts st st' e :
  reachable st ->
  append et ar am c sup em eid ts st = (st', Ok e) ->
  id e = eid
  /\ get_entry eid st' = Ok (Some e)
  /\ get_by_sequence (sequence_number e) st' = Ok (Some e)
  /\ forall x, x ∈ st ->
       get_entry (id x) st' = Ok (Some x)
       /\ get_by_sequence (sequence_number x) st' = Ok (Some x).
Proof.
  intros Hr Ha.
  assert (Hr' : reachable st') by (eapply reach_append; eauto).
  pose proof (reachable_ids _ Hr') as Hid.
  pose proof (reachable_chain _ Hr') as [_ Hi%indexed_NoDup _ _ _].
  apply append_inv in Ha as [(_ & _ & ?)|(tip & _ & Hw)]; [done|].
  apply append_write_row in Hw as (-> & _ & _ & Heid & _).
  assert (He : e ∈ st ++ [e]) by (apply elem_of_app; right; by left).
  split_and!; [done| | |].
  - rewrite <- Heid. by apply get_entry_elem.
  - by apply get_by_sequence_elem.
  - intros x Hx. assert (x ∈ st ++ [e]) by (apply elem_of_app; by left).
    split; [by apply get_entry_elem|by apply get_by_sequence_elem].
Qed.




(** X7. On every table the count that [verify_chain] returns lies between
    0 and [get_entry_count]; when it returns [True] the count is the
    number of rows, which is at least one, and when it returns [False] on
    a table with rows the count is below the number of rows. *)
Theorem verify_chain_count st :
  0 <= (verify_chain st).1.2 <= get_entry_count st
  /\ ((verify_chain st).1.1 = true ->
      (verify_chain st).1.2 = get_entry_count st /\ 1 <= get_entry_count st)
  /\ ((verify_chain st).1.1 = false ->
      get_entry_count st = 0 \/ (verify_chain st).1.2 < get_entry_count st).
Proof.
  destruct (decide (st = [])) as [->|Hne].
  { change (verify_chain []) with (false, 0, "No entries found in ledger").
    simpl. split_and!; [done|done|done|]. by left. }
  pose proof (verify_chain_outcome st) as H. unfold get_entry_count.
  destruct (verify_chain st) as [[[] n] m]; simpl.
  - destruct H as [((first & rest & Hl & _) & _) ->].
    assert (1 <= length st)%nat.
    { rewrite <- (length_select_asc st), Hl. simpl. lia. }
    split_and!; [lia|lia| |done]. intros _. lia.
  - destruct H as (k & -> & Hk & _). specialize (Hk Hne).
    split_and!; [lia|lia|done|]. right. lia.
Qed.

(** X8. [verify_chain] returns [True] exactly on the tables whose rows,
    read in ascending sequence order, start with a row of sequence number
    0 that names the 64 zeros, carry each the hash of their own fields,
    and name each the hash of the row before.  Nothing else is checked:
    not that the sequence numbers are contiguous, and not that rows are
    missing at the end. *)
Theorem verify_chain_accepts st :
  (verify_chain st).1.1 = true <-> verified (select_asc st).
Proof.
  split.
  - intros Hv. pose proof (verify_chain_outcome st) as H.
    destruct (verify_chain st) as [[[] n] m]; [by destruct H|done].
  - intros Hv. by rewrite (verify_chain_verified st Hv).
Qed.

(** X9. When [verify_chain] returns [False] on a table with rows, the
    count it returns is the index, in ascending sequence order, of the
    first row that fails: every row before it passes the hash check and
    the linkage check, and the row itself fails one of them, or it is row
    0 and fails the checks of the genesis row. *)
Theorem verify_chain_first_failure st n m :
  verify_chain st = (false, n, m) -> st <> [] ->
  exists k : nat,
    n = Z.of_nat k
    /\ (k < length st)%nat
    /\ (forall j : nat, (j < k)%nat -> passes (select_asc st) j)
    /\ (~ passes (select_asc st) k
        \/ (k = 0%nat
            /\ exists first,
                 head (select_asc st) = Some first
                 /\ (sequence_number first <> 0
                     \/ previous_hash first <> GENESIS_HASH))).
Proof.
  intros Hv Hne. pose proof (verify_chain_outcome st) as H.
  rewrite Hv in H. destruct H as (k & -> & Hk & Hbefore & Hfail).
  exists k. split_and!; [done|by apply Hk|done|].
  destruct Hfail as [Hfail|[-> Hfirst]]; [by left|right].
  split; [done|].
  pose proof (length_select_asc st) as Hlen.
  destruct (select_asc st) as [|first rest].
  - destruct st; [done|discriminate Hlen].
  - by exists first.
Qed.

(** X10. [verify_chain] does not see that the newest rows are gone: on a
    table built by [initialize] and [append] on which it returns [True],
    cut down to its first [k] rows ([k >= 1]), it returns [True] and the
    number of rows left. *)
Theorem truncation_verifies st (k : nat) :
  reachable st -> (verify_chain st).1.1 = true -> (1 <= k)%nat ->
  verify_chain (take k st) =
    (true, Z.of_nat (min k (length st)),
     "Chain verified: " +:+ str_int (Z.of_nat (min k (length st)))
       +:+ " entries, integrity intact").
Proof.
  intros Hc%reachable_chain Hv Hk.
  pose proof (verified_hashed _ Hc Hv) as Hh.
  destruct Hc as [Hne Hi Hg Hl _].
  rewrite <- length_take. apply verify_chain_verified.
  assert (Hi' : indexed (take k st)).
  { intros i e [He _]%lookup_take_Some. by apply Hi. }
  rewrite (indexed_select_asc _ Hi'). split_and!.
  - destruct st as [|first rest]; [done|]. destruct k as [|k]; [lia|].
    exists first, (take k rest). split_and!; [done| |].
    + by apply (Hi 0%nat).
    + by apply Hg.
  - intros e He. apply Hh. by apply subseteq_take in He.
  - intros i p e [Hp _]%lookup_take_Some [He _]%lookup_take_Some.
    by apply (Hl i).
Qed.

(** X11. [verify_chain] does not see an edit of the last row that comes
    with a new hash: when the last row of a table built by [initialize]
    and [append], on which [verify_chain] returns [True], is replaced by
    a row with the same sequence number and previous hash whose stored
    hash is the hash of its fields, it still returns [True] and the
    number of rows. *)
Theorem rehashed_tip_verifies st e e' :
  reachable st -> (verify_chain st).1.1 = true -> last st = Some e ->
  sequence_number e' = sequence_number e ->
  previous_hash e' = previous_hash e ->
  entry_hash e' = recompute_hash e' ->
  verify_chain (<[pred (length st) := e']> st) =
    (true, Z.of_nat (length st),
     "Chain verified: " +:+ str_int (Z.of_nat (length st))
       +:+ " entries, integrity intact").
Proof.
  intros Hc%reachable_chain Hv Hlast Hs Hp Hr.
  pose proof (verified_hashed _ Hc Hv) as Hh.
  destruct Hc as [Hne Hi Hg Hl _].
  rewrite last_lookup in Hlast.
  set (i := pred (length st)) in *.
  pose proof (lookup_lt_Some _ _ _ Hlast) as Hlt.
  rewrite <- (length_insert st i e'). apply verify_chain_verified.
  assert (Hother : forall k, k <> i -> <[i:=e']> st !! k = st !! k).
  { intros k Hk. by apply list_lookup_insert_ne. }
  assert (He' : <[i:=e']> st !! i = Some e') by by apply list_lookup_insert_eq.
  assert (Hi' : indexed (<[i:=e']> st)).
  { intros k x Hx. destruct (decide (k = i)) as [->|Hk].
    - assert (x = e') as -> by congruence. rewrite Hs. by apply Hi.
    - rewrite Hother in Hx by done. by apply Hi. }
  rewrite (indexed_select_asc _ Hi'). split_and!.
  - destruct (<[i:=e']> st) as [|first rest] eqn:E.
    { apply (f_equal length) in E. rewrite length_insert in E.
      simpl in E. lia. }
    exists first, rest. split; [done|]. rewrite <- E in *.
    assert (H0 : <[i:=e']> st !! 0%nat = Some first) by by rewrite E.
    split; [by apply (Hi' 0%nat)|].
    destruct (decide (i = 0%nat)) as [Hi0|Hi0].
    + rewrite Hi0 in *. assert (first = e') as -> by congruence.
      rewrite Hp. by apply Hg.
    + rewrite Hother in H0 by done. by apply Hg.
  - intros x [k Hx]%list_elem_of_lookup.
    destruct (decide (k = i)) as [->|Hk].
    + by assert (x = e') as -> by congruence.
    + rewrite Hother in Hx by done. apply Hh.
      by apply list_elem_of_lookup_2 in Hx.
  - intros k p x Hpk Hxk.
    assert (Hk : (S k < length st)%nat).
    { apply lookup_lt_Some in Hxk. by rewrite length_insert in Hxk. }
    rewrite Hother in Hpk by (unfold i; lia).
    destruct (decide (S k = i)) as [Hki|Hki].
    + rewrite Hki in Hxk. assert (x = e') as -> by congruence.
      rewrite Hp. apply (Hl k); [done|]. by rewrite Hki.
    + rewrite Hother in Hxk by done. by apply (Hl k).
Qed.

(** X12. The digest of an entry is 64 characters long and made of the
    characters [0123456789abcdef], whatever the fields: it fits the
    [String(64)] columns [entry_hash] and [previous_hash]. *)
Theorem compute_hash_format eid seq prev ts et ar am c sup em :
  String.length (_compute_hash eid seq prev ts et ar am c sup em) = 64%nat
  /\ lower_hex (_compute_hash eid seq prev ts et ar am c sup em) = true
  /\ (char_length (_compute_hash eid seq prev ts et ar am c sup em) <= 64)%nat.
Proof.
  split_and!.
  - unfold _compute_hash. apply Sha256Facts.length_sha256_hex.
  - unfold _compute_hash. apply lower_hex_hexdigest.
  - apply char_length_hash.
Qed.

(** X13. The verbose listing of the audit tool, on a table built by
    [initialize] and [append], shows every row once, in the order the
    rows were written (ascending sequence numbers). *)
Theorem verbose_listing_reachable st :
  reachable st -> verbose_listing st = listing_row <$> st.
Proof.
  intros [_ Hi _ _ _]%reachable_chain.
  unfold verbose_listing, get_latest_entries, get_entry_count.
  rewrite (select_desc_indexed _ Hi), Nat2Z.id.
  rewrite take_ge by (by rewrite length_reverse).
  by rewrite reverse_involutive.
Qed.


(** X15. [LedgerEntry.compute_hash] of the Pydantic model and
    [LedgerService._compute_hash] agree: on the fields of an entry, with
    the value of its type, both give the same digest. *)
Theorem compute_hash_agrees (self : Schema.LedgerEntry) :
  Schema.compute_hash self
  = _compute_hash (Schema.id self) (Schema.sequence_number self)
      (Schema.previous_hash self) (Schema.timestamp self)
      (Schema.value_of (Schema.entry_type self)) (Schema.author_role self)
      (Schema.author_member_id self) (Schema.content self)
      (Schema.supersedes self) (Schema.emergency_designation self).
Proof. unfold Schema.compute_hash, _compute_hash. reflexivity. Qed.

(** X16. The two enumerations of entry types carry the same values:
    every value of [LedgerEntryType] is a value of [LedgerEntryTypeDB]
    and the other way round, no value is used twice, and every value fits
    the [String(50)] column [entry_type]. *)
Theorem entry_types_mirror :
  (forall t, (Schema.value_of t ∈ Models.value_of <$> Models.members))
  /\ (forall d, (Models.value_of d ∈ Schema.value_of <$> Schema.members))
  /\ (forall t1 t2, Schema.value_of t1 = Schema.value_of t2 -> t1 = t2)
  /\ (forall t, (char_length (Schema.value_of t) <= 50)%nat).
Proof.
  split_and!.
  - intros t. apply (bool_decide_unpack _). destruct t; vm_compute; exact I.
  - intros d. apply (bool_decide_unpack _). destruct d; vm_compute; exact I.
  - intros t1 t2. destruct t1, t2; (reflexivity || discriminate).
  - intros t. apply Nat.leb_le. by destruct t.
Qed.



(** X19. [append] succeeds on a ledger built by [initialize] and [append]
    when the storage holds the values of the new row, the new id is not
    stored, the type and the role fit their columns, the next sequence
    number fits an [Integer], the new digest is not the hash of a stored
    row, and [supersedes], if given, names a stored row.  The new row gets
    the number of rows as its sequence number and names the hash of the
    last row. *)
Theorem append_succeeds et ar am c sup em eid ts st tip :
  reachable st -> last st = Some tip ->
  unstorable (next_row tip et ar am c sup em eid ts) = None ->
  Z.of_nat (length st) <= 2147483647 ->
  (char_length et <= 50)%nat -> (char_length ar <= 100)%nat ->
  eid ∉ (id <$> st) ->
  _compute_hash eid (Z.of_nat (length st)) (entry_hash tip) ts et ar am c
    sup em ∉ (entry_hash <$> st) ->
  (forall u, sup = Some u -> u ∈ id <$> st) ->
  exists e,
    append et ar am c sup em eid ts st = (st ++ [e], Ok e)
    /\ e = stored (next_row tip et ar am c sup em eid ts)
    /\ sequence_number e = Z.of_nat (length st)
    /\ previous_hash e = entry_hash tip
    /\ id e = eid.
Proof.
  intros Hr Hlast Hu Hmax Het Har Hid Hhash Hsup.
  pose proof (reachable_chain _ Hr) as [Hne Hi _ _ _].
  rewrite last_lookup in Hlast.
  pose proof (lookup_lt_Some _ _ _ Hlast) as Hlt.
  pose proof (Hi _ _ Hlast) as Hseq.
  assert (Hnext : sequence_number tip + 1 = Z.of_nat (length st)) by lia.
  unfold append, sbind at 1.
  destruct (append_read_spec st) as [[-> _]|(tip' & [Hin Hmaxseq] & Hread)];
    [done|].
  assert (tip' = tip) as ->.
  { apply (indexed_elem st); [done|done|by apply list_elem_of_lookup_2 in Hlast|].
    apply list_elem_of_lookup in Hin as [j Hj].
    pose proof (Hi _ _ Hj). pose proof (lookup_lt_Some _ _ _ Hj).
    pose proof (Hmaxseq tip ltac:(by apply list_elem_of_lookup_2 in Hlast)).
    lia. }
  rewrite Hread, append_write_next.
  assert (Hacc : acceptable st (next_row tip et ar am c sup em eid ts)).
  { unfold acceptable. split; [exact Hu|]. unfold next_row. fields.
    rewrite Hnext. split_and!; try done.
    - lia.
    - apply (reachable_hash_length st Hr).
      by apply list_elem_of_lookup_2 in Hlast.
    - apply char_length_hash.
    - intros (x & Hx & Hxin)%list_elem_of_fmap.
      apply list_elem_of_lookup in Hxin as [j Hj].
      pose proof (Hi _ _ Hj). pose proof (lookup_lt_Some _ _ _ Hj). lia.
    - intros u Hu'. rewrite fmap_app. apply elem_of_app. left. by apply Hsup. }
  apply violation_None in Hacc. rewrite Hacc.
  eexists. split; [reflexivity|]. by split_and!.
Qed.

(** X20. [append] writes nothing and raises when the new id is the id of
    a stored row, or when [supersedes] names an id that no stored row
    has. *)
Theorem append_refused et ar am c sup em eid ts st :
  (eid ∈ (id <$> st)
   \/ exists u, sup = Some u /\ (u ∉ (id <$> st)) /\ u <> eid) ->
  exists x, append et ar am c sup em eid ts st = (st, Raise x).
Proof.
  intros Hbad. unfold append, sbind at 1.
  destruct (append_read_spec st) as [[-> Hread]|(tip & _ & Hread)];
    rewrite Hread; [by eexists|].
  apply append_write_refused.
  intros e He Hs (_ & _ & _ & _ & _ & _ & Hid & _ & _ & Hfk).
  destruct Hbad as [Hdup|(u & -> & Hu & Hne)].
  - apply Hid. by rewrite He.
  - specialize (Hfk u Hs). rewrite fmap_app in Hfk.
    apply elem_of_app in Hfk as [Hfk|Hfk]; [done|].
    apply list_elem_of_singleton in Hfk. congruence.
Qed.



(** X23. The errors of [append] on a database: it raises
    [LedgerIntegrityError] exactly when the table is there and has no
    row; the message is then "Cannot append: no genesis block found. Call
    initialize() first.".  On a database without the table it raises the
    [ProgrammingError] of its first [SELECT].  Whenever [append] raises,
    the database is left as it was. *)
Theorem append_errors et ar am c sup em eid ts db :
  ((exists msg,
      (LedgerService.append et ar am c sup em eid ts db).2
      = Raise (LedgerIntegrityError msg)) <-> db = Some [])
  /\ (db = Some [] ->
      (LedgerService.append et ar am c sup em eid ts db).2
      = Raise (LedgerIntegrityError
          "Cannot append: no genesis block found. Call initialize() first."))
  /\ (db = None ->
      (LedgerService.append et ar am c sup em eid ts db).2
      = Raise (ProgrammingError "ledger_entries"))
  /\ (forall x,
        (LedgerService.append et ar am c sup em eid ts db).2 = Raise x ->
        (LedgerService.append et ar am c sup em eid ts db).1 = db).
Proof.
  unfold LedgerService.append, LedgerService.on_table.
  destruct db as [st|].
  2:{ split_and!; [split; [by intros [? ?]|done]|done|done|done]. }
  destruct (append et ar am c sup em eid ts st) as [st' r] eqn:H. simpl.
  apply append_inv in H as [(-> & -> & ->)|(tip & [Hin _] & Hw)].
  - split_and!; [split; [done|eauto]|done|done|done].
  - assert (Hne : st <> []) by (intros ->; inversion Hin).
    assert (Hdb : Some st <> Some []) by congruence.
    apply append_write_inv in Hw
      as [(x & -> & -> & Hx)|(e & -> & -> & _)].
    + split_and!; [split|done|done|done].
      * intros [msg Hm]. simplify_eq. by destruct (Hx msg).
      * done.
    + split_and!; [split|done|done|done].
      * by intros [msg Hm].
      * done.
Qed.

End Properties.

(** ** The properties on the sample ledger *)

#[local] Existing Instance utc.

Lemma sample_chain : reachable ledger2.
Proof. exact Spec.sample_reachable. Qed.

Lemma sample_chain1 : reachable ledger1.
Proof.
  eapply reach_append; [|apply Spec.sample_append_alpha].
  eapply reach_genesis, Spec.sample_initialize.
Qed.


Lemma get_by_sequence_reachable_witness :
  reachable ledger2
  /\ get_by_sequence 1 ledger2 = Ok (Some alpha_row)
  /\ get_by_sequence 3 ledger2 = Ok None.
Proof.
  split; [apply sample_chain|]. split.
  - exact (get_by_sequence_reachable ledger2 1 sample_chain).
  - exact (get_by_sequence_reachable ledger2 3 sample_chain).
Defined.

Lemma get_entry_reachable_witness :
  reachable ledger2
  /\ (forall e, e ∈ ledger2 -> get_entry (id e) ledger2 = Ok (Some e))
  /\ (forall i, i ∉ (id <$> ledger2) -> get_entry i ledger2 = Ok None).
Proof.
  split; [apply sample_chain|].
  exact (get_entry_reachable ledger2 sample_chain).
Defined.

Lemma append_then_read_witness :
  reachable ledger1
  /\ append "executive_action" "operations_executive" 7
       (JDict [("action", JStr "beta")]) None false 4 noon ledger1
     = (ledger2, Ok beta_row)
  /\ get_entry 4 ledger2 = Ok (Some beta_row)
  /\ get_by_sequence 2 ledger2 = Ok (Some beta_row).
Proof.
  pose proof sample_chain1 as Hr.
  pose proof Spec.sample_append_beta as Ha.
  split; [exact Hr|]. split; [exact Ha|].
  destruct (append_then_read _ _ _ _ _ _ _ _ _ _ _ Hr Ha) as (_ & H1 & H2 & _).
  split; [exact H1|exact H2].
Defined.




Lemma verify_chain_first_failure_witness :
  verify_chain (<[1%nat := omega_row]> ledger2)
  = (false, 1,
     "Hash mismatch at sequence 1: stored=3c099473470c0bb4... computed=48d0a91d902e0efc...")
  /\ <[1%nat := omega_row]> ledger2 <> []
  /\ exists k : nat,
       1 = Z.of_nat k
       /\ (k < length (<[1%nat := omega_row]> ledger2))%nat
       /\ (forall j : nat, (j < k)%nat ->
             passes (select_asc (<[1%nat := omega_row]> ledger2)) j)
       /\ (~ passes (select_asc (<[1%nat := omega_row]> ledger2)) k
           \/ (k = 0%nat
               /\ exists first,
                    head (select_asc (<[1%nat := omega_row]> ledger2))
                    = Some first
                    /\ (sequence_number first <> 0
                        \/ previous_hash first <> GENESIS_HASH))).
Proof.
  assert (Hv : verify_chain (<[1%nat := omega_row]> ledger2)
    = (false, 1,
       "Hash mismatch at sequence 1: stored=3c099473470c0bb4... computed=48d0a91d902e0efc..."))
    by (vm_compute; reflexivity).
  assert (Hne : <[1%nat := omega_row]> ledger2 <> []) by discriminate.
  split; [exact Hv|]. split; [exact Hne|].
  exact (verify_chain_first_failure _ _ _ Hv Hne).
Defined.

Lemma truncation_verifies_witness :
  reachable ledger2 /\ (verify_chain ledger2).1.1 = true /\ (1 <= 2)%nat
  /\ verify_chain (take 2 ledger2)
     = (true, 2, "Chain verified: 2 entries, integrity intact").
Proof.
  assert (Hv : (verify_chain ledger2).1.1 = true) by (vm_compute; reflexivity).
  split; [apply sample_chain|]. split; [exact Hv|]. split; [lia|].
  exact (truncation_verifies ledger2 2 sample_chain Hv ltac:(lia)).
Defined.

Lemma rehashed_tip_verifies_witness :
  reachable ledger2 /\ (verify_chain ledger2).1.1 = true
  /\ last ledger2 = Some beta_row
  /\ entry_hash rehashed_row = recompute_hash rehashed_row
  /\ verify_chain (<[2%nat := rehashed_row]> ledger2)
     = (true, 3, "Chain verified: 3 entries, integrity intact").
Proof.
  assert (Hv : (verify_chain ledger2).1.1 = true) by (vm_compute; reflexivity).
  assert (Hr : entry_hash rehashed_row = recompute_hash rehashed_row)
    by (vm_compute; reflexivity).
  split; [apply sample_chain|]. split; [exact Hv|].
  split; [reflexivity|]. split; [exact Hr|].
  exact (rehashed_tip_verifies ledger2 beta_row rehashed_row
           sample_chain Hv eq_refl eq_refl eq_refl Hr).
Defined.

Lemma verbose_listing_reachable_witness :
  reachable ledger2
  /\ verbose_listing ledger2
     = [["0"; "genesis"; "system"; "2f67c7af9c5984b6...";
         "2024-01-01 12:00:00"; "—"];
        ["1"; "executive_action"; "operations_executive";
         "3c099473470c0bb4..."; "2024-01-01 12:00:00"; "—"];
        ["2"; "executive_action"; "operations_executive";
         "87d85e9653ff6623..."; "2024-01-01 12:00:00"; "—"]].
Proof.
  split; [apply sample_chain|].
  rewrite (verbose_listing_reachable ledger2 sample_chain).
  vm_compute. reflexivity.
Defined.




Lemma append_succeeds_witness :
  reachable ledger1 /\ last ledger1 = Some alpha_row
  /\ unstorable
       (next_row alpha_row "executive_action" "operations_executive" 7
          (JDict [("action", JStr "beta")]) None false 4 noon) = None
  /\ exists e,
       append "executive_action" "operations_executive" 7
         (JDict [("action", JStr "beta")]) None false 4 noon ledger1
       = (ledger1 ++ [e], Ok e)
       /\ e = stored
               (next_row alpha_row "executive_action" "operations_executive" 7
                  (JDict [("action", JStr "beta")]) None false 4 noon)
       /\ sequence_number e = 2
       /\ previous_hash e = entry_hash alpha_row
       /\ id e = 4.
Proof.
  assert (Hu : unstorable
       (next_row alpha_row "executive_action" "operations_executive" 7
          (JDict [("action", JStr "beta")]) None false 4 noon) = None)
    by (vm_compute; reflexivity).
  split; [apply sample_chain1|]. split; [reflexivity|]. split; [exact Hu|].
  refine (append_succeeds "executive_action" "operations_executive" 7
            (JDict [("action", JStr "beta")]) None false 4 noon ledger1
            alpha_row sample_chain1 eq_refl Hu _ _ _ _ _ _).
  - vm_compute. discriminate.
  - apply Nat.leb_le. vm_compute. reflexivity.
  - apply Nat.leb_le. vm_compute. reflexivity.
  - apply (bool_decide_eq_false_1 _). vm_compute. reflexivity.
  - apply (bool_decide_eq_false_1 _). vm_compute. reflexivity.
  - intros u Hu'. discriminate Hu'.
Defined.

Lemma append_refused_witness :
  (3 ∈ (id <$> ledger1)
   \/ exists u, None = Some u /\ (u ∉ (id <$> ledger1)) /\ u <> 3)
  /\ exists x,
       append "executive_action" "operations_executive" 7
         (JDict [("action", JStr "beta")]) None false 3 noon ledger1
       = (ledger1, Raise x).
Proof.
  assert (H : 3 ∈ (id <$> ledger1)
   \/ exists u, @None UUID = Some u /\ (u ∉ (id <$> ledger1)) /\ u <> 3).
  { left. apply (bool_decide_unpack _). vm_compute. exact I. }
  split; [exact H|].
  exact (append_refused "executive_action" "operations_executive" 7
           (JDict [("action", JStr "beta")]) None false 3 noon ledger1 H).
Defined.



Lemma append_errors_witness :
  (LedgerService.append "executive_action" "operations_executive" 7
     (JDict [("action", JStr "alpha")]) None false 3 noon (Some [])).2
  = Raise (LedgerIntegrityError
      "Cannot append: no genesis block found. Call initialize() first.")
  /\ (LedgerService.append "executive_action" "operations_executive" 7
        (JDict [("action", JStr "alpha")]) None false 3 noon (Some [])).1
     = Some [].
Proof.
  destruct (append_errors "executive_action" "operations_executive" 7
              (JDict [("action", JStr "alpha")]) None false 3 noon (Some []))
    as (_ & H2 & _ & H4).
  split; [exact (H2 eq_refl)|exact (H4 _ (H2 eq_refl))].
Defined.

End Extra.
